(** * MCP.py: the tool handlers of the example MCP server

    A shallow embedding of [src/MCP.py]: the path resolver [_safe_path], the
    handlers [echo], [read_file], [query_db] and [summarize], and the
    initializer [_ensure_db].  They are small Python functions over text,
    over [pathlib] paths and over one sqlite file, and are translated one by
    one, keeping their names, the order of their tests and their default
    arguments.

    Conventions.
    - A Python [str] is a [string]; each character stands for the code point
      of the same number, so the texts of the model are those whose code
      points lie below 256.  [strip], [lower], [split], [join], slicing,
      [startswith] and [in] act on them as CPython does on such texts.
    - A Python [int] is a [Z].
    - An optional argument is an [option]; [None] selects the default written
      in the [def] line.
    - A call that may raise returns a [result]; the exception is a value. *)

From Stdlib Require Import ZArith List String Ascii Bool Lia Arith.
From Stdlib Require Import DecimalString.
Import ListNotations.

Local Open Scope string_scope.
Local Open Scope Z_scope.

(** ** Python values shared by the handlers *)

(** The exception classes that reach the handlers. [str(e)] is the message. *)
Inductive exn : Type :=
| ValueError (msg : string)
| RuntimeError (msg : string)
| OSError (msg : string)
| IndexError (msg : string)
| OperationalError (msg : string).

Definition str_exn (e : exn) : string :=
  match e with
  | ValueError m | RuntimeError m | OSError m | IndexError m
  | OperationalError m => m
  end.

Inductive result (A : Type) : Type :=
| Ok (a : A)
| Raise (e : exn).
Arguments Ok {A} a.
Arguments Raise {A} e.

(** The value of an optional argument. *)
Definition arg {A : Type} (given : option A) (default : A) : A :=
  match given with
  | Some a => a
  | None => default
  end.

(** ** Text primitives *)
Module Text.

Definition code (c : ascii) : N := N_of_ascii c.

(** [str.isspace] on one character: TAB..CR, FS..US, SPACE, NEL, NBSP. *)
Definition isspace (c : ascii) : bool :=
  let n := code c in
  ((9 <=? n) && (n <=? 13) || (28 <=? n) && (n <=? 32)
   || (n =? 133) || (n =? 160))%N.

(** [str.lower] on one character: A..Z and the capital letters of
    U+00C0..U+00DE (the multiplication sign U+00D7 is not a letter). *)
Definition lower_char (c : ascii) : ascii :=
  let n := code c in
  if ((65 <=? n) && (n <=? 90)
      || (192 <=? n) && (n <=? 222) && negb (n =? 215))%N
  then ascii_of_N (n + 32) else c.

Fixpoint lower (s : string) : string :=
  match s with
  | EmptyString => EmptyString
  | String c s' => String (lower_char c) (lower s')
  end.

(** [bool(s)]: a text is true when it is not empty. *)
Definition truthy (s : string) : bool :=
  match s with
  | EmptyString => false
  | String _ _ => true
  end.

(** [s.lstrip(...)] and [s.rstrip(...)] for a set of characters [p]. *)
Fixpoint lstrip_with (p : ascii -> bool) (s : string) : string :=
  match s with
  | EmptyString => EmptyString
  | String c s' => if p c then lstrip_with p s' else s
  end.

Fixpoint rstrip_with (p : ascii -> bool) (s : string) : string :=
  match s with
  | EmptyString => EmptyString
  | String c s' =>
      let r := rstrip_with p s' in
      if p c && negb (truthy r) then EmptyString else String c r
  end.

(** [s.strip()] *)
Definition strip (s : string) : string :=
  rstrip_with isspace (lstrip_with isspace s).

(** [s.rstrip(chars)] *)
Fixpoint mem_char (c : ascii) (chars : string) : bool :=
  match chars with
  | EmptyString => false
  | String d chars' => Ascii.eqb c d || mem_char c chars'
  end.

Definition rstrip (chars s : string) : string :=
  rstrip_with (fun c => mem_char c chars) s.

(** [s.startswith(p)] *)
Fixpoint startswith (p s : string) : bool :=
  match p, s with
  | EmptyString, _ => true
  | String a p', String b s' => Ascii.eqb a b && startswith p' s'
  | String _ _, EmptyString => false
  end.

(** [sub in s] *)
Fixpoint contains (sub s : string) : bool :=
  startswith sub s ||
  match s with
  | EmptyString => false
  | String _ s' => contains sub s'
  end.

(** [s.split(sep)] for a separator of one character: the pieces between
    the separators, the empty ones included; never the empty list. *)
Fixpoint split (sep : ascii) (s : string) : list string :=
  match s with
  | EmptyString => [EmptyString]
  | String c s' =>
      if Ascii.eqb c sep then EmptyString :: split sep s'
      else match split sep s' with
           | piece :: rest => String c piece :: rest
           | [] => [String c EmptyString]
           end
  end.

(** [sep.join(pieces)] *)
Fixpoint join (sep : string) (pieces : list string) : string :=
  match pieces with
  | [] => EmptyString
  | [x] => x
  | x :: rest => x ++ sep ++ join sep rest
  end.

(** The first [n] characters. *)
Fixpoint take (n : nat) (s : string) : string :=
  match n, s with
  | O, _ => EmptyString
  | S _, EmptyString => EmptyString
  | S n', String c s' => String c (take n' s')
  end.

(** [s[:n]]: a negative bound counts from the end. *)
Definition slice_to (s : string) (n : Z) : string :=
  if n <? 0 then take (Z.to_nat (Z.of_nat (length s) + n)) s
  else take (Z.to_nat n) s.

(** [l[:n]] on a list. *)
Definition slice_list {A : Type} (l : list A) (n : Z) : list A :=
  if n <? 0 then firstn (Z.to_nat (Z.of_nat (List.length l) + n)) l
  else firstn (Z.to_nat n) l.

(** [l * n] on a list: no copy at all when [n] is not positive. *)
Definition list_mul {A : Type} (l : list A) (n : Z) : list A :=
  List.concat (List.repeat l (Z.to_nat n)).

(** [str(n)] for an integer. *)
Definition str_int (n : Z) : string :=
  NilZero.string_of_int (Z.to_int n).

End Text.
Import Text.

(** ** echo, lines 41-48 *)
Definition echo (text : string) (repeat : option Z) : string :=
  let repeat := arg repeat 1 in
  let repeat := if repeat <? 1 then 1 else repeat in
  let repeat := if repeat >? 10 then 10 else repeat in
  let out := join " " (list_mul [text] repeat) in
  if (length out <=? 2000)%nat then out else slice_to out 2000.

(** ** summarize, lines 97-104 *)
Definition summarize (text : string) (max_sentences : option Z) : string :=
  let max_sentences := arg max_sentences 3 in
  let s := map strip (filter (fun seg => truthy (strip seg)) (split "." text)) in
  match s with
  | [] => ""
  | _ :: _ =>
      let max_sentences := if max_sentences <? 1 then 1 else max_sentences in
      join ". " (slice_list s max_sentences)
      ++ (if (0 <? List.length (slice_list s max_sentences))%nat then "." else "")
  end.

(** ** The error monad of the fallible calls *)
Definition bind {A B : Type} (m : result A) (k : A -> result B) : result B :=
  match m with
  | Ok a => k a
  | Raise e => Raise e
  end.

Notation "x <- m ;; k" := (bind m (fun x => k))
  (at level 61, m at next level, right associativity).

(** ** pathlib on POSIX: pure paths *)
Module Pathlib.

(** A parsed path: the root ([""], ["/"] or ["//"]) and the components
    after it. *)
Record PosixPath : Type := mkpath { root : string; parts : list string }.

Definition is_sep (c : ascii) : bool := Ascii.eqb c "/".

(** [_PosixFlavour.splitroot]: exactly two leading slashes are kept. *)
Definition splitroot (part : string) : string * string :=
  if startswith "/" part then
    let stripped := lstrip_with is_sep part in
    if (length part - length stripped =? 2)%nat then ("//", stripped)
    else ("/", stripped)
  else ("", part).

(** [pathlib.Path(s)]: empty components and ["."] are dropped, [".."] is
    kept. *)
Definition Path (s : string) : PosixPath :=
  let (r, rel) := splitroot s in
  mkpath r (filter (fun x => truthy x && negb (String.eqb x ".")) (split "/" rel)).

Definition is_absolute (p : PosixPath) : bool := truthy (root p).

(** [a / b] *)
Definition joinpath (a b : PosixPath) : PosixPath :=
  if truthy (root b) then b else mkpath (root a) (parts a ++ parts b).

(** [p.parents]: the logical ancestors, the nearest first. *)
Definition parents (p : PosixPath) : list PosixPath :=
  map (fun k => mkpath (root p) (firstn k (parts p)))
      (rev (seq 0 (List.length (parts p)))).

(** [a == b] *)
Definition path_eqb (a b : PosixPath) : bool :=
  String.eqb (root a) (root b)
  && if list_eq_dec string_dec (parts a) (parts b) then true else false.

(** [a in l] for a sequence of paths. *)
Definition path_in (a : PosixPath) (l   : list PosixPath) : bool :=
  existsb (path_eqb a) l.

(** [os.path.expanduser]: the text up to the first ["/"] names the user
    ([""] is the current one).  The lookup of the home directory answers
    [Ok (Some home)], or [Ok None] for an unknown user ([KeyError], which is
    caught and leaves the text as it is), or raises: [pwd.getpwnam] raises
    [ValueError] on a name that holds a null character, and that is not
    caught. *)
Fixpoint until_sep (s : string) : string * string :=
  match s with
  | EmptyString => (EmptyString, EmptyString)
  | String c s' =>
      if is_sep c then (EmptyString, s)
      else let (name, rest) := until_sep s' in (String c name, rest)
  end.

Definition os_path_expanduser (userhome : string -> result (option string))
    (s : string) : result string :=
  match s with
  | String "~" s' =>
      let (name, rest) := until_sep s' in
      found <- userhome name ;;
      match found with
      | None => Ok s
      | Some home =>
          let r := rstrip "/" home ++ rest in
          Ok (if truthy r then r else "/")
      end
  | _ => Ok s
  end.

(** [p.expanduser()] *)
Definition expanduser (userhome : string -> result (option string))
    (p : PosixPath) : result PosixPath :=
  match root p, parts p with
  | EmptyString, first :: rest =>
      if startswith "~" first then
        homedir <- os_path_expanduser userhome first ;;
        if startswith "~" homedir
        then Raise (RuntimeError "Could not determine home directory.")
        else let h := Path homedir in Ok (mkpath (root h) (parts h ++ rest))
      else Ok p
  | _, _ => Ok p
  end.

End Pathlib.
Import Pathlib.

Notation "a // b" := (joinpath a b) (at level 40, left associativity).

(** ** The file system seen by the handlers

    What the operating system answers: the home directory of a user (found,
    unknown, or a lookup that raises), the working directory of the process,
    and the outcome of the [pathlib] calls that touch the disk. *)
Record FileSystem : Type := {
  userhome : string -> result (option string);
  cwd : PosixPath;
  resolve : PosixPath -> result PosixPath;
  path_exists : PosixPath -> result bool;
  is_file : PosixPath -> result bool;
  read_text : PosixPath -> result string
}.

Section Files.
Variable fs : FileSystem.

(** Line 18: [ROOT_DIR = pathlib.Path.cwd()] *)
Definition ROOT_DIR : PosixPath := cwd fs.

(** Line 19 *)
Definition DB_PATH : PosixPath := ROOT_DIR // Path "mcp_example.db".

(** Lines 24-33.  [expanduser] is called before the [try]. *)
Definition _safe_path (path : string) : result (option PosixPath) :=
  p <- expanduser (userhome fs) (Path path) ;;
  match resolve fs (if is_absolute p then p else ROOT_DIR // p) with
  | Raise _ => Ok None
  | Ok p =>
      if path_in ROOT_DIR (parents p) || path_eqb p ROOT_DIR
      then Ok (Some p)
      else Ok None
  end.

(** Lines 62-71 *)
Definition read_file (path : string) (max_bytes : option Z) : result string :=
  let max_bytes := arg max_bytes 2000 in
  p <- _safe_path path ;;
  match p with
  | None => Ok ""
  | Some p =>
      e <- path_exists fs p ;;
      if negb e then Ok "" else
      f <- is_file fs p ;;
      if negb f then Ok "" else
      match read_text fs p with
      | Ok text => Ok (slice_to text max_bytes)
      | Raise e => Ok ("ERROR: " ++ str_exn e)
      end
  end.

End Files.

(** *** A file system without symbolic links *)
Module Disk.

Inductive node : Type :=
| Dir
| File (text : string)
| Unreadable (why : string).

(** [resolve] without links: [".."] steps back, and stays at the root. *)
Fixpoint walk (seen : list string) (todo : list string) : list string :=
  match todo with
  | [] => rev seen
  | ".." :: todo' => walk (tl seen) todo'
  | x :: todo' => walk (x :: seen) todo'
  end.

Definition lookup (tree : list (list string * node)) (p : PosixPath) : option node :=
  match find (fun e => if list_eq_dec string_dec (fst e) (parts p)
                       then true else false) tree with
  | Some e => Some (snd e)
  | None => None
  end.

Definition make (homes : list (string * string)) (wd : string)
    (tree : list (list string * node)) : FileSystem :=
  {| userhome := fun u =>
       if mem_char "000" u then Raise (ValueError "embedded null byte")
       else match find (fun e => String.eqb (fst e) u) homes with
            | Some e => Ok (Some (snd e))
            | None => Ok None
            end;
     cwd := Path wd;
     resolve := fun p =>
       let q := if is_absolute p then p else Path wd // p in
       Ok (mkpath "/" (walk [] (parts q)));
     path_exists := fun p =>
       Ok (match lookup tree p with Some _ => true | None => false end);
     is_file := fun p =>
       Ok (match lookup tree p with
           | Some (File _) | Some (Unreadable _) => true
           | _ => false
           end);
     read_text := fun p =>
       match lookup tree p with
       | Some (File text) => Ok text
       | Some (Unreadable why) => Raise (OSError why)
       | Some Dir => Raise (OSError "[Errno 21] Is a directory")
       | None => Raise (OSError "[Errno 2] No such file or directory")
       end |}.

(** The server runs in [/srv/app]; [alice] is the current user. *)
Definition example : FileSystem :=
  make [("", "/home/alice"); ("alice", "/home/alice")] "/srv/app"
    [ (["srv"], Dir);
      (["srv"; "app"], Dir);
      (["srv"; "app"; "notes.txt"], File "remember the milk");
      (["srv"; "app"; "data"], Dir);
      (["srv"; "app"; "data"; "locked.bin"],
       Unreadable "[Errno 13] Permission denied: '/srv/app/data/locked.bin'");
      (["etc"], Dir);
      (["etc"; "passwd"], File "root:x:0:0:root:/root:/bin/sh");
      (["home"], Dir);
      (["home"; "alice"], Dir) ].

End Disk.

(** ** The sqlite file behind [query_db]

    The handlers reach the database through [aiosqlite]: a connection is
    opened on [DB_PATH], statements run on it, [commit] saves, and leaving
    the [async with] block closes it.  A computation over a state [S] that
    may raise keeps the state it had reached. *)

Definition M (S A : Type) : Type := S -> result A * S.

Definition ret {S A : Type} (a : A) : M S A := fun s => (Ok a, s).

Definition raise {S A : Type} (e : exn) : M S A := fun s => (Raise e, s).

Definition lift {S A : Type} (r : result A) : M S A := fun s => (r, s).

Definition mbind {S A B : Type} (m : M S A) (k : A -> M S B) : M S B :=
  fun s =>
    match m s with
    | (Ok a, s') => k a s'
    | (Raise e, s') => (Raise e, s')
    end.

Notation "x <~ m ;; k" := (mbind m (fun x => k))
  (at level 61, m at next level, right associativity).

(** The values sqlite hands to Python (reals are left out). *)
Inductive value : Type :=
| Null
| Integer (z : Z)
| Txt (s : string)
| Blob (b : string).

(** [sqlite3.Row]: the column names of the cursor with the values of one
    row, in the order of the cursor. *)
Definition Row : Type := list (string * value).

Definition keys (r : Row) : list string := map fst r.

(** Row lookup compares names as they are, or, when both are ASCII, without
    regard to the case of A..Z. *)
Definition is_ascii (s : string) : bool :=
  forallb (fun c => (code c <? 128)%N) (list_ascii_of_string s).

Definition key_eqb (a b : string) : bool :=
  String.eqb a b
  || (is_ascii a && is_ascii b && String.eqb (lower a) (lower b)).

(** [r[name]]: the first column of that name. *)
Fixpoint getitem (r : Row) (name : string) : result value :=
  match r with
  | [] => Raise (IndexError "No item with that key")
  | (k, v) :: r' => if key_eqb k name then Ok v else getitem r' name
  end.

(** A list comprehension whose body may raise. *)
Fixpoint for_each {A B : Type} (f : A -> result B) (l : list A)
    : result (list B) :=
  match l with
  | [] => Ok []
  | a :: l' => b <- f a ;; bs <- for_each f l' ;; Ok (b :: bs)
  end.

(** Lines 73-75 *)
Record QueryResult : Type := { columns : list string; rows : list (list value) }.

(** What the storage library offers.  [Db] is the content of a database
    file and [Conn] an open connection; [connect] opens the file, creating
    an empty one when there is none, and [close] tells what the file holds
    once the connection is gone. *)
Record Driver : Type := {
  Db : Type;
  Conn : Type;
  connect : option Db -> result Conn;
  execute : string -> list value -> M Conn (list Row);
  commit : M Conn unit;
  close : Conn -> Db
}.

Section Database.
Variable drv : Driver.

(** The database file at [DB_PATH]: [None] while it does not exist. *)
Definition Store : Type := option (Db drv).

(** [async with aiosqlite.connect(DB_PATH) as db: body] *)
Definition with_connection {A : Type} (body : M (Conn drv) A) : M Store A :=
  fun store =>
    match connect drv store with
    | Raise e => (Raise e, store)
    | Ok db => let (r, db') := body db in (r, Some (close drv db'))
    end.

(** [db.executemany(sql, seq)] *)
Fixpoint executemany (sql : string) (seq : list (list value))
    : M (Conn drv) unit :=
  match seq with
  | [] => ret tt
  | params :: seq' =>
      _ <~ execute drv sql params ;; executemany sql seq'
  end.

(** Lines 78-94 *)
Definition query_db (sql : string) (limit : option Z) : M Store QueryResult :=
  let limit := arg limit 100 in
  let sql := strip sql in
  if negb (startswith "select" (lower sql)) then
    raise (ValueError "Only SELECT queries are allowed.")
  else
    let limit := if (limit <=? 0) || (limit >? 1000) then 100 else limit in
    with_connection (
      let sql :=
        if negb (contains "limit" (lower sql))
        then rstrip ";" sql ++ " LIMIT " ++ str_int limit
        else sql in
      rows <~ execute drv sql [] ;;
      let cols := match rows with r :: _ => keys r | [] => [] end in
      data <~ lift (for_each (fun r => for_each (fun c => getitem r c) cols) rows) ;;
      ret {| columns := cols; rows := data |}).

(** Lines 106-114 *)
Definition _ensure_db : M Store unit :=
  fun store =>
    match store with
    | Some _ => (Ok tt, store)
    | None =>
        with_connection (
          _ <~ execute drv
            "CREATE TABLE users (id INTEGER PRIMARY KEY, name TEXT, messages INTEGER)"
            [] ;;
          _ <~ executemany "INSERT INTO users (name, messages) VALUES (?,?)"
            [ [Txt "alice"; Integer 5]; [Txt "bob"; Integer 3];
              [Txt "carol"; Integer 12]; [Txt "dave"; Integer 0] ] ;;
          commit drv) store
    end.

(** The process is started [n] times; each start runs [_ensure_db] (line
    118) and stops at the first failure. *)
Fixpoint started (n : nat) : M Store unit :=
  match n with
  | O => ret tt
  | S n' => _ <~ _ensure_db ;; started n'
  end.

End Database.

(** *** A small sqlite

    An engine for the three shapes of statement the program sends:
    [CREATE TABLE t (column definitions)],
    [INSERT INTO t (columns) VALUES (?, ...)] and
    [SELECT * FROM t] with an optional [LIMIT n].  Keywords and table names
    are matched without regard to case; a column declared
    [INTEGER PRIMARY KEY] is numbered by the engine, one above the largest
    number in use; rows come back in the order of that number.  Following
    the [sqlite3] module, [INSERT] opens a transaction when none is open,
    [CREATE TABLE] outside a transaction is saved at once, and closing drops
    what was not committed.  Any other statement is refused. *)
Module Sqlite.

Record table : Type := mktable {
  tname : string;
  tcols : list string;
  tkey : option string;
  trows : list (list value)
}.

Record conn : Type := mkconn { disk : list table; txn : option (list table) }.

(** Tokens: words, and each of [( ) , ; *] on its own. *)
Definition is_blank (c : ascii) : bool :=
  let n := code c in
  ((n =? 9) || (n =? 10) || (n =? 12) || (n =? 13) || (n =? 32))%N.

Fixpoint spaced (s : string) : string :=
  match s with
  | EmptyString => EmptyString
  | String c s' =>
      if mem_char c "(),;*" then String " " (String c (String " " (spaced s')))
      else if is_blank c then String " " (spaced s')
      else String c (spaced s')
  end.

Definition tokens (s : string) : list string :=
  filter truthy (split " " (spaced s)).

Definition kw (word token : string) : bool := String.eqb (lower token) word.

Inductive stmt : Type :=
| CreateTable (name : string) (defs : list (list string))
| Insert (name : string) (cols : list string) (marks : list string)
| SelectAll (name : string) (limit : option nat).

Fixpoint split_commas (ts : list string) : list (list string) :=
  match ts with
  | [] => [[]]
  | t :: ts' =>
      if String.eqb t "," then [] :: split_commas ts'
      else match split_commas ts' with
           | g :: gs => (t :: g) :: gs
           | [] => [[t]]
           end
  end.

(** The tokens up to the first [")"], and those after it. *)
Fixpoint until_close (ts : list string) : option (list string * list string) :=
  match ts with
  | [] => None
  | t :: ts' =>
      if String.eqb t ")" then Some ([], ts')
      else match until_close ts' with
           | Some (inner, after) => Some (t :: inner, after)
           | None => None
           end
  end.

Fixpoint drop_semis (ts : list string) : list string :=
  match ts with
  | [] => []
  | t :: ts' =>
      match drop_semis ts' with
      | [] => if String.eqb t ";" then [] else [t]
      | r => t :: r
      end
  end.

Definition singles (groups : list (list string)) : option (list string) :=
  if forallb (fun g => (List.length g =? 1)%nat) groups
  then Some (List.concat groups) else None.

Definition parse_limit (t : string) : option nat :=
  match NilZero.uint_of_string t with
  | Some u => if truthy t then Some (Nat.of_uint u) else None
  | None => None
  end.

Definition parse (sql : string) : option stmt :=
  match drop_semis (tokens sql) with
  | a :: b :: name :: "(" :: rest =>
      if kw "create" a && kw "table" b then
        match until_close rest with
        | Some (inner, []) =>
            let defs := split_commas inner in
            if forallb (fun d => (0 <? List.length d)%nat) defs
            then Some (CreateTable name defs) else None
        | _ => None
        end
      else if kw "insert" a && kw "into" b then
        match until_close rest with
        | Some (inner, v :: "(" :: rest') =>
            match singles (split_commas inner), until_close rest' with
            | Some cols, Some (inner', []) =>
                match singles (split_commas inner') with
                | Some marks =>
                    if kw "values" v && forallb (String.eqb "?") marks
                    then Some (Insert name cols marks) else None
                | None => None
                end
            | _, _ => None
            end
        | _ => None
        end
      else None
  | [a; "*"; b; name] =>
      if kw "select" a && kw "from" b then Some (SelectAll name None) else None
  | [a; "*"; b; name; c; n] =>
      if kw "select" a && kw "from" b && kw "limit" c then
        match parse_limit n with
        | Some k => Some (SelectAll name (Some k))
        | None => None
        end
      else None
  | _ => None
  end.

Definition same_name (a b : string) : bool := String.eqb (lower a) (lower b).

Definition find_table (db : list table) (name : string) : option table :=
  find (fun t => same_name (tname t) name) db.

Definition key_of (defs : list (list string)) : option string :=
  match find (fun d => match map lower (tl d) with
                       | ["integer"; "primary"; "key"] => true
                       | _ => false
                       end) defs with
  | Some d => Some (hd "" d)
  | None => None
  end.

Definition run_create (db : list table) (name : string)
    (defs : list (list string)) : result (list table) :=
  match find_table db name with
  | Some _ => Raise (OperationalError ("table " ++ name ++ " already exists"))
  | None => Ok (db ++ [mktable name (map (hd "") defs) (key_of defs) []])%list
  end.

Fixpoint index_of (c : string) (cols : list string) : option nat :=
  match cols with
  | [] => None
  | d :: cols' =>
      if same_name d c then Some O
      else match index_of c cols' with
           | Some i => Some (S i)
           | None => None
           end
  end.

Definition is_key (t : table) (c : string) : bool :=
  match tkey t with
  | Some k => same_name k c
  | None => false
  end.

(** The largest number in use in the key column (0 when there is none). *)
Definition key_value (t : table) (r : list value) : Z :=
  match find (fun cv => is_key t (fst cv)) (combine (tcols t) r) with
  | Some (_, Integer z) => z
  | _ => 0
  end.

Definition last_key (t : table) : Z :=
  fold_right (fun r m => Z.max (key_value t r) m) 0 (trows t).

Definition new_row (t : table) (cols : list string) (params : list value)
    : list value :=
  map (fun c =>
         match index_of c cols with
         | Some i => nth i params Null
         | None => if is_key t c then Integer (last_key t + 1) else Null
         end) (tcols t).

Definition put_table (db : list table) (t : table) : list table :=
  map (fun u => if same_name (tname u) (tname t) then t else u) db.

Definition run_insert (db : list table) (name : string) (cols marks : list string)
    (params : list value) : result (list table) :=
  match find_table db name with
  | None => Raise (OperationalError ("no such table: " ++ name))
  | Some t =>
      if negb (List.length marks =? List.length params)%nat then
        Raise (OperationalError "Incorrect number of bindings supplied.")
      else if negb (List.length marks =? List.length cols)%nat then
        Raise (OperationalError "values do not match the columns")
      else if existsb (fun c => is_key t c
                                || match index_of c (tcols t) with
                                   | Some _ => false
                                   | None => true
                                   end) cols then
        Raise (OperationalError "statement outside the fragment")
      else
        Ok (put_table db
              (mktable (tname t) (tcols t) (tkey t)
                 (trows t ++ [new_row t cols params])%list))
  end.

Definition run_select (db : list table) (name : string) (limit : option nat)
    : result (list Row) :=
  match find_table db name with
  | None => Raise (OperationalError ("no such table: " ++ name))
  | Some t =>
      let found := map (combine (tcols t)) (trows t) in
      Ok (match limit with
          | Some k => firstn k found
          | None => found
          end)
  end.

Definition current (c : conn) : list table := arg (txn c) (disk c).

Definition write (c : conn) (db : list table) : conn :=
  match txn c with
  | Some _ => mkconn (disk c) (Some db)
  | None => mkconn db None
  end.

Definition run (sql : string) (params : list value) : M conn (list Row) :=
  fun c =>
    match parse sql with
    | Some (CreateTable name defs) =>
        match run_create (current c) name defs with
        | Ok db => (Ok [], write c db)
        | Raise e => (Raise e, c)
        end
    | Some (Insert name cols marks) =>
        let c := mkconn (disk c) (Some (current c)) in
        match run_insert (current c) name cols marks params with
        | Ok db => (Ok [], write c db)
        | Raise e => (Raise e, c)
        end
    | Some (SelectAll name limit) => (run_select (current c) name limit, c)
    | None => (Raise (OperationalError "statement outside the fragment"), c)
    end.

Definition driver : Driver :=
  {| Db := list table;
     Conn := conn;
     connect := fun store => Ok (mkconn (arg store []) None);
     execute := run;
     commit := fun c => (Ok tt, mkconn (current c) None);
     close := disk |}.

End Sqlite.

(** ** ping, lines 35-38 *)
Definition ping : string := "pong".

(** ** list_dir, lines 50-59

    The directory calls of [pathlib]: [is_dir], and [os.listdir], from
    which [iterdir] makes one child path per name. *)
Record Directories : Type := {
  is_dir : PosixPath -> result bool;
  listdir : PosixPath -> result (list string)
}.

(** [p.name]: the last component, the empty text when there is none. *)
Definition name (p : PosixPath) : string := last (parts p) "".

(** [p._make_child_relpath(part)] *)
Definition child (p : PosixPath) (part : string) : PosixPath :=
  mkpath (root p) (parts p ++ [part]).

(** [p.iterdir()] *)
Definition iterdir (ds : Directories) (p : PosixPath) : result (list PosixPath) :=
  names <- listdir ds p ;; Ok (map (child p) names).

Definition list_dir (fs : FileSystem) (ds : Directories) (path : option string)
    : result (list string) :=
  let path := arg path "." in
  p <- _safe_path fs path ;;
  match p with
  | None => Ok []
  | Some p =>
      e <- path_exists fs p ;;
      if negb e then Ok [] else
      d <- is_dir ds p ;;
      if negb d then Ok [] else
      children <- iterdir ds p ;;
      for_each (fun c => d <- is_dir ds c ;;
                         Ok (name c ++ (if d then "/" else ""))) children
  end.

(** The directories of a file system without symbolic links. *)
Definition disk_dirs (tree : list (list string * Disk.node)) : Directories :=
  {| is_dir := fun p =>
       Ok (match Disk.lookup tree p with Some Disk.Dir => true | _ => false end);
     listdir := fun p =>
       match Disk.lookup tree p with
       | Some Disk.Dir =>
           Ok (List.concat
                 (map (fun e =>
                         match rev (fst e) with
                         | n :: up =>
                             if list_eq_dec string_dec (rev up) (parts p)
                             then [n] else []
                         | [] => []
                         end) tree))
       | Some _ => Raise (OSError "[Errno 20] Not a directory")
       | None => Raise (OSError "[Errno 2] No such file or directory")
       end |}.

(** The tree of [Disk.example]. *)
Definition example_tree : list (list string * Disk.node) :=
  [ (["srv"], Disk.Dir);
    (["srv"; "app"], Disk.Dir);
    (["srv"; "app"; "notes.txt"], Disk.File "remember the milk");
    (["srv"; "app"; "data"], Disk.Dir);
    (["srv"; "app"; "data"; "locked.bin"],
     Disk.Unreadable "[Errno 13] Permission denied: '/srv/app/data/locked.bin'");
    (["etc"], Disk.Dir);
    (["etc"; "passwd"], Disk.File "root:x:0:0:root:/root:/bin/sh");
    (["home"], Disk.Dir);
    (["home"; "alice"], Disk.Dir) ].

(** A storage layer that opens at once and answers every statement the
    same way; it stands for a database in a fixed state. *)
Definition stub_driver (answer : result (list Row)) : Driver :=
  {| Db := unit;
     Conn := unit;
     connect := fun _ => Ok tt;
     execute := fun _ _ c => (answer, c);
     commit := fun c => (Ok tt, c);
     close := fun _ => tt |}.

(** The column names of a row are distinct when no two of them are equal
    for the row lookup. *)
Fixpoint distinct_keys (ks : list string) : bool :=
  match ks with
  | [] => true
  | k :: ks' => negb (existsb (key_eqb k) ks') && distinct_keys ks'
  end.

(** A period or white space. *)
Definition period_or_space (c : ascii) : bool :=
  Ascii.eqb c "." || isspace c.

(** ** The vocabulary of the properties

    [sentences], [accepted] and [mentions_limit] follow the words of the
    specification; [effective_limit], [sent] and [fetch] name what lines
    83-94 compute, so that the properties can speak of the limit in force
    and of the statement that reaches the database. *)

(** The segments of a text: split on the period, trim each piece, drop the
    empty ones. *)
Definition sentences (text : string) : list string :=
  filter truthy (map strip (split "." text)).

(** A statement is accepted when, once stripped, it begins with "select" in
    any case. *)
Definition accepted (sql : string) : bool :=
  startswith "select" (lower (strip sql)).

(** A statement mentions a limit when "limit" occurs somewhere in its
    text, in any case. *)
Definition mentions_limit (sql : string) : bool :=
  contains "limit" (lower sql).

(** The limit in force after lines 83-84: the one given (100 when left
    out) if it lies in 1..1000, and 100 otherwise. *)
Definition effective_limit (limit : option Z) : Z :=
  if (1 <=? arg limit 100) && (arg limit 100 <=? 1000) then arg limit 100
  else 100.

(** The statement handed to the database by line 90. *)
Definition sent (sql : string) (limit : option Z) : string :=
  if mentions_limit sql then strip sql
  else rstrip ";" (strip sql) ++ " LIMIT " ++ str_int (effective_limit limit).

(** Lines 90-94: running a statement and shaping what comes back; the
    columns are the keys of the first row, and each row is read column by
    column. *)
Definition fetch (drv : Driver) (stmt : string) : M (Conn drv) QueryResult :=
  fetched <~ execute drv stmt [] ;;
  let cols := match fetched with r :: _ => keys r | [] => [] end in
  data <~ lift (for_each (fun r => for_each (fun c => getitem r c) cols) fetched) ;;
  ret {| columns := cols; rows := data |}.

Definition is_raise {A : Type} (r : result A) : bool :=
  match r with
  | Ok _ => false
  | Raise _ => true
  end.

(** The four rows written at the first start. *)
Definition seed_rows : list (list value) :=
  [ [Integer 1; Txt "alice"; Integer 5]; [Integer 2; Txt "bob"; Integer 3];
    [Integer 3; Txt "carol"; Integer 12]; [Integer 4; Txt "dave"; Integer 0] ].

(** Every character of a text satisfies [p]; the last character of a
    text. *)
Fixpoint all_chars (p : ascii -> bool) (s : string) : bool :=
  match s with
  | EmptyString => true
  | String c s' => p c && all_chars p s'
  end.

Fixpoint last_char (s : string) : option ascii :=
  match s with
  | EmptyString => None
  | String c EmptyString => Some c
  | String _ s' => last_char s'
  end.

(** The store after the first start, as the small sqlite holds it. *)
Definition seeded : list Sqlite.table :=
  [ Sqlite.mktable "users" ["id"; "name"; "messages"] (Some "id") seed_rows ].

(** * Properties *)

(** Case analysis on the integer comparisons of a goal, closed by linear
    arithmetic. *)
Ltac z_cases :=
  repeat (first
    [ match goal with |- context [(?x <? ?y)] => destruct (Z.ltb_spec x y) end
    | match goal with |- context [(?x >? ?y)] => destruct (Z.gtb_spec x y) end
    | match goal with |- context [(?x <=? ?y)] => destruct (Z.leb_spec x y) end ]);
  simpl; try lia.

(** ** Text *)
Section TextFacts.

Lemma length_append (a b : string) :
  length (a ++ b) = (length a + length b)%nat.
Proof. induction a as [|c a IH]; simpl; [reflexivity | now rewrite IH]. Qed.

Lemma take_all (n : nat) (s : string) :
  (length s <= n)%nat -> take n s = s.
Proof.
  revert n; induction s as [|c s IH]; intros [|n] H; simpl in *;
    try reflexivity; try lia.
  f_equal; apply IH; lia.
Qed.

Lemma length_take (n : nat) (s : string) :
  length (take n s) = Nat.min n (length s).
Proof.
  revert n; induction s as [|c s IH]; intros [|n]; simpl; try reflexivity.
  now rewrite IH.
Qed.

Lemma slice_to_nonneg (s : string) (n : Z) :
  0 <= n -> slice_to s n = take (Z.to_nat n) s.
Proof.
  intros H; unfold slice_to.
  destruct (Z.ltb_spec n 0); [lia | reflexivity].
Qed.

Lemma slice_list_nonneg {A : Type} (l : list A) (n : Z) :
  0 <= n -> slice_list l n = firstn (Z.to_nat n) l.
Proof.
  intros H; unfold slice_list.
  destruct (Z.ltb_spec n 0); [lia | reflexivity].
Qed.

Lemma list_mul_single {A : Type} (x : A) (n : Z) :
  list_mul [x] n = List.repeat x (Z.to_nat n).
Proof.
  unfold list_mul; induction (Z.to_nat n) as [|k IH]; simpl;
    [reflexivity | now rewrite IH].
Qed.

Lemma truthy_false (s : string) : truthy s = false <-> s = "".
Proof. destruct s; simpl; split; intros H; congruence. Qed.

Lemma length_rstrip_with (p : ascii -> bool) (s : string) :
  (length (rstrip_with p s) <= length s)%nat.
Proof.
  induction s as [|c s IH]; simpl; [lia|].
  destruct (p c && negb (truthy (rstrip_with p s))); simpl; lia.
Qed.

Lemma startswith_iff (p s : string) :
  startswith p s = true <-> exists t, s = p ++ t.
Proof.
  revert s; induction p as [|a p IH]; intros s; simpl.
  - split; [intros _; exists s; reflexivity | reflexivity].
  - destruct s as [|b s].
    + split; [discriminate | intros [t H]; discriminate].
    + rewrite andb_true_iff, Ascii.eqb_eq, IH; split.
      * intros [-> [t ->]]; exists t; reflexivity.
      * intros [t H]; inversion H; split; [reflexivity | exists t; reflexivity].
Qed.

(** [contains] is the substring test. *)
Lemma contains_iff (sub s : string) :
  contains sub s = true <-> exists a b, s = a ++ sub ++ b.
Proof.
  induction s as [|c s IH].
  - cbn [contains]; rewrite orb_false_r, startswith_iff; split.
    + intros [t H]; exists "", t; exact H.
    + intros [a [b H]]; destruct a; [exists b; exact H | discriminate].
  - cbn [contains]; rewrite orb_true_iff, startswith_iff, IH; split.
    + intros [[t H] | [a [b H]]].
      * exists "", t; exact H.
      * exists (String c a), b; simpl; now rewrite H.
    + intros [a [b H]]; destruct a as [|d a]; simpl in H.
      * left; exists b; exact H.
      * right; inversion H; exists a, b; reflexivity.
Qed.

(** [split] cuts at every separator and nowhere else. *)
Lemma split_not_nil (sep : ascii) (s : string) : split sep s <> [].
Proof.
  destruct s as [|c s]; simpl; [discriminate|].
  destruct (Ascii.eqb c sep); [discriminate|].
  destruct (split sep s); discriminate.
Qed.

Lemma join_cons (sep x : string) (l : list string) :
  l <> [] -> join sep (x :: l) = x ++ sep ++ join sep l.
Proof. destruct l; [contradiction | reflexivity]. Qed.

Lemma join_split (sep : ascii) (s : string) :
  join (String sep "") (split sep s) = s.
Proof.
  induction s as [|c s IH]; [reflexivity|].
  cbn [split].
  destruct (Ascii.eqb_spec c sep) as [->|N].
  - rewrite join_cons by apply split_not_nil.
    simpl; now rewrite IH.
  - destruct (split sep s) as [|x l] eqn:E;
      [now apply split_not_nil in E|].
    destruct l as [|y l].
    + simpl in *; now rewrite IH.
    + rewrite join_cons in * by discriminate.
      simpl in *; now rewrite IH.
Qed.

Lemma split_pieces (sep : ascii) (s : string) :
  Forall (fun piece => mem_char sep piece = false) (split sep s).
Proof.
  induction s as [|c s IH]; cbn [split].
  - constructor; [reflexivity | constructor].
  - destruct (Ascii.eqb_spec c sep) as [->|N].
    + constructor; [reflexivity | exact IH].
    + assert (M : (sep =? c)%char = false)
        by (destruct (Ascii.eqb_spec sep c); congruence).
      destruct (split sep s) as [|x l].
      * constructor; [simpl; now rewrite M | constructor].
      * inversion IH as [|? ? Hx Hl]; subst.
        constructor; [simpl; now rewrite M, Hx | exact Hl].
Qed.

(** What [lstrip] and [rstrip] remove, and what they leave. *)
Lemma lstrip_with_split (p : ascii -> bool) (s : string) :
  exists t, s = t ++ lstrip_with p s /\ all_chars p t = true.
Proof.
  induction s as [|c s [t [E A]]]; simpl.
  - exists ""; split; reflexivity.
  - destruct (p c) eqn:P.
    + exists (String c t); simpl; split; [now rewrite <- E | now rewrite P, A].
    + exists ""; split; reflexivity.
Qed.

Lemma lstrip_with_first (p : ascii -> bool) (s : string) (c : ascii) (r : string) :
  lstrip_with p s = String c r -> p c = false.
Proof.
  induction s as [|d s IH]; simpl; [discriminate|].
  destruct (p d) eqn:P; [exact IH|].
  intros H; inversion H; now subst.
Qed.

Lemma rstrip_with_split (p : ascii -> bool) (s : string) :
  exists t, s = rstrip_with p s ++ t /\ all_chars p t = true.
Proof.
  induction s as [|c s [t [E A]]]; simpl.
  - exists ""; split; reflexivity.
  - destruct (p c) eqn:P; simpl.
    + destruct (rstrip_with p s) eqn:R; simpl in *.
      * exists (String c t); simpl; split;
          [now rewrite <- E | now rewrite P, A].
      * exists t; split; [now rewrite <- E | exact A].
    + exists t; split; [now rewrite <- E | exact A].
Qed.

Lemma all_chars_weaken (p q : ascii -> bool) (t : string) :
  all_chars p t = true -> (forall c, p c = true -> q c = true) ->
  all_chars q t = true.
Proof.
  intros T W; induction t as [|c t IH]; [reflexivity|].
  cbn [all_chars] in *; apply andb_true_iff in T; destruct T as [T1 T2].
  rewrite (W c T1); now apply IH.
Qed.

Lemma rstrip_with_last (p : ascii -> bool) (s : string) (c : ascii) :
  last_char (rstrip_with p s) = Some c -> p c = false.
Proof.
  induction s as [|d s IH]; simpl; [discriminate|].
  destruct (rstrip_with p s) as [|d' r] eqn:R.
  - destruct (p d) eqn:P; simpl; [discriminate|].
    intros H; inversion H; now subst.
  - rewrite andb_false_r. exact IH.
Qed.

(** Stripping keeps the occurrences of a text that holds none of the
    stripped characters. *)
Lemma startswith_rstrip_with (p : ascii -> bool) (sub s : string) :
  all_chars (fun c => negb (p c)) sub = true ->
  startswith sub (rstrip_with p s) = startswith sub s.
Proof.
  revert sub; induction s as [|c s IH]; intros sub A; [reflexivity|].
  cbn [rstrip_with].
  destruct sub as [|a sub]; [destruct (_ && _); reflexivity|].
  cbn [all_chars] in A; apply andb_true_iff in A; destruct A as [A1 A2].
  destruct (p c && negb (truthy (rstrip_with p s))) eqn:T.
  - apply andb_true_iff in T; destruct T as [T _].
    cbn [startswith].
    destruct (Ascii.eqb_spec a c) as [->|N]; [|reflexivity].
    rewrite T in A1; discriminate.
  - cbn [startswith]; now rewrite IH.
Qed.

Lemma contains_rstrip_with (p : ascii -> bool) (sub s : string) :
  truthy sub = true ->
  all_chars (fun c => negb (p c)) sub = true ->
  contains sub (rstrip_with p s) = contains sub s.
Proof.
  intros N A; induction s as [|c s IH]; [reflexivity|].
  cbn [contains]; rewrite <- IH.
  rewrite <- (startswith_rstrip_with p sub (String c s) A).
  cbn [rstrip_with].
  destruct (p c && negb (truthy (rstrip_with p s))) eqn:T;
    [|reflexivity].
  apply andb_true_iff in T; destruct T as [_ T].
  apply negb_true_iff, truthy_false in T; rewrite T.
  destruct sub; [discriminate | reflexivity].
Qed.

Lemma contains_lstrip_with (p : ascii -> bool) (a : ascii) (sub s : string) :
  p a = false ->
  contains (String a sub) (lstrip_with p s) = contains (String a sub) s.
Proof.
  intros A; induction s as [|c s IH]; [reflexivity|].
  cbn [lstrip_with]; destruct (p c) eqn:P; [|reflexivity].
  rewrite IH; cbn [contains startswith].
  destruct (Ascii.eqb_spec a c) as [->|N]; [congruence | reflexivity].
Qed.

Lemma isspace_lower_char (c : ascii) : isspace (lower_char c) = isspace c.
Proof.
  destruct c as [b0 b1 b2 b3 b4 b5 b6 b7].
  destruct b7, b6, b5, b4, b3, b2, b1, b0; reflexivity.
Qed.

Lemma lower_lstrip (s : string) :
  lower (lstrip_with isspace s) = lstrip_with isspace (lower s).
Proof.
  induction s as [|c s IH]; [reflexivity|].
  cbn [lower lstrip_with]; rewrite isspace_lower_char.
  destruct (isspace c); [exact IH | reflexivity].
Qed.

Lemma truthy_lower (s : string) : truthy (lower s) = truthy s.
Proof. destruct s; reflexivity. Qed.

Lemma lower_rstrip (s : string) :
  lower (rstrip_with isspace s) = rstrip_with isspace (lower s).
Proof.
  induction s as [|c s IH]; [reflexivity|].
  cbn [lower rstrip_with]; rewrite isspace_lower_char, <- IH, truthy_lower.
  destruct (isspace c && negb (truthy (rstrip_with isspace s))); reflexivity.
Qed.

Lemma lower_strip (s : string) : lower (strip s) = strip (lower s).
Proof. unfold strip; now rewrite lower_rstrip, lower_lstrip. Qed.

(** [strip] removes white space at both ends, and only there. *)
Lemma strip_trims (s : string) :
  exists a b,
    s = a ++ strip s ++ b
    /\ all_chars isspace a = true /\ all_chars isspace b = true
    /\ (forall c r, strip s = String c r -> isspace c = false)
    /\ (forall c, last_char (strip s) = Some c -> isspace c = false).
Proof.
  destruct (lstrip_with_split isspace s) as [a [Ea Aa]].
  destruct (rstrip_with_split isspace (lstrip_with isspace s)) as [b [Eb Ab]].
  exists a, b; unfold strip.
  split; [now rewrite <- Eb|].
  split; [exact Aa|]; split; [exact Ab|]; split.
  - intros c r H.
    destruct (lstrip_with isspace s) as [|d t] eqn:L; [discriminate|].
    pose proof (lstrip_with_first _ _ _ _ L) as F.
    cbn [rstrip_with] in H; rewrite F in H; simpl in H.
    inversion H; now subst.
  - apply rstrip_with_last.
Qed.

(** The test for "limit" sees the same on the stripped statement as on
    the statement. *)
Lemma contains_limit_strip (s : string) :
  contains "limit" (lower (strip s)) = contains "limit" (lower s).
Proof.
  rewrite lower_strip; unfold strip.
  rewrite contains_rstrip_with by reflexivity.
  apply contains_lstrip_with; reflexivity.
Qed.

End TextFacts.

(** ** echo *)

Lemma echo_clamp (repeat : Z) :
  (if (if repeat <? 1 then 1 else repeat) >? 10 then 10
   else (if repeat <? 1 then 1 else repeat))
  = Z.min (Z.max repeat 1) 10.
Proof. z_cases. Qed.

(** C7.  For every text and every integer [repeat] (1 when it is left out),
    [echo] returns a text, never an error: the text repeated
    [min (max repeat 1) 10] times, joined by single spaces, cut to its first
    2000 characters.  [echo("hi", repeat=20)] is ten repetitions and
    [echo("hi", repeat=0)] is one. *)
Theorem echo_repeats_clamped_and_truncated (text : string) (repeat : option Z) :
  let n := Z.to_nat (Z.min (Z.max (arg repeat 1) 1) 10) in
  (1 <= n <= 10)%nat
  /\ echo text repeat = take 2000 (join " " (List.repeat text n))
  /\ (length (echo text repeat) <= 2000)%nat
  /\ echo "hi" (Some 20) = "hi hi hi hi hi hi hi hi hi hi"
  /\ echo "hi" (Some 0) = "hi".
Proof.
  intros n.
  assert (E : echo text repeat = take 2000 (join " " (List.repeat text n))).
  { unfold echo. rewrite echo_clamp, list_mul_single. fold n.
    destruct (Nat.leb_spec (length (join " " (List.repeat text n))) 2000) as [H|H].
    - symmetry; apply take_all, H.
    - apply slice_to_nonneg; lia. }
  split; [subst n; lia|].
  split; [exact E|].
  split; [rewrite E, length_take; apply Nat.le_min_l|].
  split; reflexivity.
Qed.

(** ** summarize *)

Lemma filter_map_strip (l : list string) :
  map strip (filter (fun seg => truthy (strip seg)) l)
  = filter truthy (map strip l).
Proof.
  induction l as [|x l IH]; simpl; [reflexivity|].
  destruct (truthy (strip x)); simpl; now rewrite IH.
Qed.

(** C8.  For every text and every [max_sentences] (3 when it is left out),
    [summarize] returns a text, never an error: the empty text when no
    segment is left, otherwise the first [max max_sentences 1] segments
    joined by a period and a space, with a period at the end. *)
Theorem summarize_keeps_first_sentences (text : string) (max_sentences : option Z) :
  let n := Z.to_nat (Z.max (arg max_sentences 3) 1) in
  summarize text max_sentences
  = match sentences text with
    | [] => ""
    | _ :: _ => join ". " (firstn n (sentences text)) ++ "."
    end
  /\ summarize "A. B. C. D." (Some 2) = "A. B."
  /\ summarize "" (Some 3) = "".
Proof.
  intros n; split; [|split; reflexivity].
  unfold summarize. rewrite filter_map_strip. fold (sentences text).
  destruct (sentences text) as [|x l] eqn:E; [reflexivity|].
  assert (C : (if arg max_sentences 3 <? 1 then 1 else arg max_sentences 3)
              = Z.max (arg max_sentences 3) 1).
  { z_cases. }
  rewrite C, slice_list_nonneg by lia. fold n.
  assert (N : (1 <= n)%nat) by (subst n; lia).
  destruct n as [|k]; [lia|]. reflexivity.
Qed.

(** ** The path resolver *)
Section ResolverFacts.
Variable fs : FileSystem.

Lemma path_eqb_eq (a b : PosixPath) : path_eqb a b = true <-> a = b.
Proof.
  unfold path_eqb; destruct a as [ra pa], b as [rb pb]; simpl.
  destruct (list_eq_dec string_dec pa pb) as [E|N];
    rewrite ?andb_true_r, ?andb_false_r.
  - rewrite String.eqb_eq; split; intros H; [subst; reflexivity|].
    now inversion H.
  - split; intros H; [discriminate | inversion H; contradiction].
Qed.

Lemma path_in_In (a : PosixPath) (l : list PosixPath) :
  path_in a l = true <-> In a l.
Proof.
  unfold path_in; rewrite existsb_exists; split.
  - intros [x [Hx E]]; apply path_eqb_eq in E; now subst.
  - intros H; exists a; split; [exact H | now apply path_eqb_eq].
Qed.

(** The ancestors of a path are the paths of the same root whose
    components are a strictly shorter prefix of its own. *)
Lemma In_parents (a p : PosixPath) :
  In a (parents p) <->
  root a = root p /\
  exists k, (k < List.length (parts p))%nat /\ parts a = firstn k (parts p).
Proof.
  unfold parents; rewrite in_map_iff; split.
  - intros [k [E Hk]]; subst a; simpl.
    apply in_rev, in_seq in Hk.
    split; [reflexivity | exists k; split; [lia | reflexivity]].
  - intros [Hr [k [Hk Hp]]]; exists k; split.
    + destruct a; simpl in *; now subst.
    + apply in_rev; rewrite rev_involutive; apply in_seq; lia.
Qed.

(** Whatever [_safe_path] accepts is the resolved form of the input,
    anchored under the root when relative, and is the root or lies below
    it; with an absolute root it is absolute. *)
Lemma _safe_path_accepts (s : string) (q : PosixPath) :
  _safe_path fs s = Ok (Some q) ->
  exists p,
    expanduser (userhome fs) (Path s) = Ok p
    /\ resolve fs (if is_absolute p then p else ROOT_DIR fs // p) = Ok q
    /\ (q = ROOT_DIR fs \/ In (ROOT_DIR fs) (parents q))
    /\ (is_absolute (ROOT_DIR fs) = true -> is_absolute q = true).
Proof.
  unfold _safe_path, bind.
  destruct (expanduser (userhome fs) (Path s)) as [p|e]; [|discriminate].
  destruct (resolve fs _) as [r|e] eqn:R; [|discriminate].
  destruct (path_in (ROOT_DIR fs) (parents r) || path_eqb r (ROOT_DIR fs))
    eqn:T; [|discriminate].
  intros H; inversion H; subst r; clear H.
  exists p; split; [reflexivity|]; split; [exact R|].
  apply orb_true_iff in T.
  assert (D : q = ROOT_DIR fs \/ In (ROOT_DIR fs) (parents q)).
  { destruct T as [T|T]; [right; now apply path_in_In | left; now apply path_eqb_eq]. }
  split; [exact D|].
  unfold is_absolute; intros A.
  destruct D as [D|D]; [now rewrite D|].
  apply In_parents in D; destruct D as [D _]; now rewrite <- D.
Qed.

(** Once the home directory is known, [_safe_path] answers without
    raising: a failure of [resolve] is a rejection, and a resolved path is
    accepted exactly when it is the root or below it. *)
Lemma _safe_path_decides (s : string) (p : PosixPath) :
  expanduser (userhome fs) (Path s) = Ok p ->
  _safe_path fs s =
  match resolve fs (if is_absolute p then p else ROOT_DIR fs // p) with
  | Raise _ => Ok None
  | Ok q =>
      if path_in (ROOT_DIR fs) (parents q) || path_eqb q (ROOT_DIR fs)
      then Ok (Some q) else Ok None
  end
  /\ forall q,
       resolve fs (if is_absolute p then p else ROOT_DIR fs // p) = Ok q ->
       (_safe_path fs s = Ok (Some q)
        <-> q = ROOT_DIR fs \/ In (ROOT_DIR fs) (parents q))
       /\ (_safe_path fs s = Ok None
           <-> ~ (q = ROOT_DIR fs \/ In (ROOT_DIR fs) (parents q))).
Proof.
  intros E; unfold _safe_path, bind; rewrite E; split; [reflexivity|].
  intros q R; rewrite R.
  destruct (path_in (ROOT_DIR fs) (parents q) || path_eqb q (ROOT_DIR fs)) eqn:T.
  - apply orb_true_iff in T.
    assert (D : q = ROOT_DIR fs \/ In (ROOT_DIR fs) (parents q)).
    { destruct T as [T|T]; [right; now apply path_in_In | left; now apply path_eqb_eq]. }
    split; split; intros H; try reflexivity; try exact D;
      [discriminate | contradiction].
  - apply orb_false_iff in T; destruct T as [T1 T2].
    assert (D : ~ (q = ROOT_DIR fs \/ In (ROOT_DIR fs) (parents q))).
    { intros [D|D].
      - apply path_eqb_eq in D; congruence.
      - apply path_in_In in D; congruence. }
    split; split; intros H; try reflexivity; try exact D;
      [discriminate | contradiction].
Qed.

End ResolverFacts.

(** What the resolver answers on the paths of the specification: a path
    outside the root is rejected, also when it climbs out with [".."], and
    the root and what lies below it are accepted. *)
Lemma _safe_path_examples :
  _safe_path Disk.example "/etc/passwd" = Ok None
  /\ _safe_path Disk.example "../../secret" = Ok None
  /\ _safe_path Disk.example "~" = Ok None
  /\ _safe_path Disk.example "." = Ok (Some (Path "/srv/app"))
  /\ _safe_path Disk.example "/srv/app" = Ok (Some (Path "/srv/app"))
  /\ _safe_path Disk.example "data/../notes.txt"
     = Ok (Some (Path "/srv/app/notes.txt"))
  /\ _safe_path Disk.example "/srv/application" = Ok None.
Proof. repeat split; reflexivity. Qed.

(** When the password database does not know the user named after the tilde,
    [expanduser] raises, and nothing catches it: the call is made before the
    [try] of line 27. *)
Lemma _safe_path_unknown_home (fs : FileSystem) :
  userhome fs "nosuchuser" = Ok None ->
  _safe_path fs "~nosuchuser"
  = Raise (RuntimeError "Could not determine home directory.").
Proof.
  intros H; unfold _safe_path, bind, expanduser; simpl.
  rewrite H; reflexivity.
Qed.

(** C1.  On the input ["~nosuchuser"], in a system with no such user,
    [_safe_path] neither returns a path nor rejects with [None]: the
    [RuntimeError] of [expanduser] leaves the function, and leaves
    [read_file] with it. *)
Theorem _safe_path_raises_on_unknown_user :
  userhome Disk.example "nosuchuser" = Ok None
  /\ _safe_path Disk.example "~nosuchuser"
     = Raise (RuntimeError "Could not determine home directory.")
  /\ read_file Disk.example "~nosuchuser" None
     = Raise (RuntimeError "Could not determine home directory.").
Proof.
  split; [reflexivity|].
  split; [apply _safe_path_unknown_home; reflexivity|].
  unfold read_file, bind.
  rewrite _safe_path_unknown_home by reflexivity; reflexivity.
Qed.

(** ** read_file *)

(** The outcomes of [read_file] once the resolver and the two tests have
    answered: the empty text when the resolver rejects the path, when the
    path does not exist and when it is not a regular file; when the file is
    read, the decoded text cut by [max_bytes] (2000 when left out), which
    for a bound that is not negative is the first [max_bytes] characters;
    when the read raises, the text ["ERROR: "] followed by the message of
    the error. *)
Theorem read_file_outcomes (fs : FileSystem) (path : string) (max_bytes : option Z) :
  (_safe_path fs path = Ok None -> read_file fs path max_bytes = Ok "")
  /\ forall p, _safe_path fs path = Ok (Some p) ->
       (path_exists fs p = Ok false -> read_file fs path max_bytes = Ok "")
       /\ (path_exists fs p = Ok true -> is_file fs p = Ok false ->
           read_file fs path max_bytes = Ok "")
       /\ (path_exists fs p = Ok true -> is_file fs p = Ok true ->
           (forall text, read_text fs p = Ok text ->
              read_file fs path max_bytes = Ok (slice_to text (arg max_bytes 2000))
              /\ (0 <= arg max_bytes 2000 ->
                  slice_to text (arg max_bytes 2000)
                  = take (Z.to_nat (arg max_bytes 2000)) text
                  /\ Z.of_nat (length (slice_to text (arg max_bytes 2000)))
                     = Z.min (arg max_bytes 2000) (Z.of_nat (length text))))
           /\ (forall e, read_text fs p = Raise e ->
                read_file fs path max_bytes = Ok ("ERROR: " ++ str_exn e))).
Proof.
  unfold read_file, bind; split.
  - intros H; rewrite H; reflexivity.
  - intros p H; rewrite H.
    split; [intros E; rewrite E; reflexivity|].
    split; [intros E F; rewrite E, F; reflexivity|].
    intros E F; rewrite E, F; cbn [negb]; split.
    + intros text R; rewrite R; split; [reflexivity|].
      intros B; split; [now apply slice_to_nonneg|].
      rewrite slice_to_nonneg, length_take by exact B; lia.
    + intros e R; rewrite R; reflexivity.
Qed.

Lemma read_file_outcomes_witness :
  _safe_path Disk.example "/etc/passwd" = Ok None
  /\ read_file Disk.example "/etc/passwd" None = Ok ""
  /\ read_file Disk.example "missing.txt" None = Ok ""
  /\ read_file Disk.example "data" None = Ok ""
  /\ read_file Disk.example "notes.txt" (Some 8) = Ok "remember"
  /\ read_file Disk.example "data/locked.bin" None
     = Ok "ERROR: [Errno 13] Permission denied: '/srv/app/data/locked.bin'".
Proof.
  split; [reflexivity|].
  split.
  { destruct (read_file_outcomes Disk.example "/etc/passwd" None) as [H _].
    apply H; reflexivity. }
  split.
  { destruct (read_file_outcomes Disk.example "missing.txt" None) as [_ H].
    destruct (H (Path "/srv/app/missing.txt") eq_refl) as [H1 _].
    apply H1; reflexivity. }
  split.
  { destruct (read_file_outcomes Disk.example "data" None) as [_ H].
    destruct (H (Path "/srv/app/data") eq_refl) as [_ [H2 _]].
    apply H2; reflexivity. }
  split.
  { destruct (read_file_outcomes Disk.example "notes.txt" (Some 8)) as [_ H].
    destruct (H (Path "/srv/app/notes.txt") eq_refl) as [_ [_ H3]].
    destruct (H3 eq_refl eq_refl) as [H4 _].
    destruct (H4 "remember the milk" eq_refl) as [H5 _].
    exact H5. }
  destruct (read_file_outcomes Disk.example "data/locked.bin" None) as [_ H].
  destruct (H (Path "/srv/app/data/locked.bin") eq_refl) as [_ [_ H3]].
  destruct (H3 eq_refl eq_refl) as [_ H4].
  exact (H4 (OSError "[Errno 13] Permission denied: '/srv/app/data/locked.bin'")
            eq_refl).
Defined.

(** An error of the resolver or of the tests [exists] and [is_file] leaves
    [read_file]: the three calls stand before the [try] of line 67. *)
Lemma read_file_raises_with_the_tests (fs : FileSystem) (path : string)
    (max_bytes : option Z) (e : exn) :
  (_safe_path fs path = Raise e -> read_file fs path max_bytes = Raise e)
  /\ forall p, _safe_path fs path = Ok (Some p) ->
       (path_exists fs p = Raise e -> read_file fs path max_bytes = Raise e)
       /\ (path_exists fs p = Ok true -> is_file fs p = Raise e ->
           read_file fs path max_bytes = Raise e).
Proof.
  unfold read_file, bind; split.
  - intros H; rewrite H; reflexivity.
  - intros p H; rewrite H; split.
    + intros E; rewrite E; reflexivity.
    + intros E F; rewrite E, F; reflexivity.
Qed.

(** C6.  On the path ["~nosuchuser/notes.txt"], in a system with no such
    user, [read_file] returns neither the empty text nor a text that
    describes the error: the [RuntimeError] raised by the resolver on line
    64, before the [try], leaves the handler. *)
Theorem read_file_raises_on_unknown_user :
  read_file Disk.example "~nosuchuser/notes.txt" None
  = Raise (RuntimeError "Could not determine home directory.")
  /\ read_file Disk.example "~nosuchuser/notes.txt" (Some 10)
     <> Ok ""
  /\ forall text, read_file Disk.example "~nosuchuser/notes.txt" None
                  <> Ok text.
Proof.
  assert (E : forall mb, read_file Disk.example "~nosuchuser/notes.txt" mb
                         = Raise (RuntimeError
                                    "Could not determine home directory.")).
  { intros mb.
    apply (proj1 (read_file_raises_with_the_tests Disk.example
                    "~nosuchuser/notes.txt" mb _)).
    reflexivity. }
  split; [apply E|].
  split; [rewrite E; discriminate|].
  intros text; rewrite E; discriminate.
Qed.

(** ** query_db *)
Section QueryFacts.
Variable drv : Driver.

Lemma lower_append (a b : string) : lower (a ++ b) = lower a ++ lower b.
Proof. induction a as [|c a IH]; simpl; [reflexivity | now rewrite IH]. Qed.

Lemma contains_append_r (sub a t : string) :
  contains sub t = true -> contains sub (a ++ t) = true.
Proof.
  intros H; induction a as [|c a IH]; simpl; [exact H|].
  rewrite IH; apply orb_true_r.
Qed.

Lemma limit_reset (l : Z) :
  (if (l <=? 0) || (l >? 1000) then 100 else l)
  = (if (1 <=? l) && (l <=? 1000) then l else 100).
Proof. z_cases. Qed.

Lemma effective_limit_range (limit : option Z) :
  1 <= effective_limit limit <= 1000.
Proof. unfold effective_limit; z_cases. Qed.

Lemma effective_limit_idem (limit : option Z) :
  effective_limit (Some (effective_limit limit)) = effective_limit limit.
Proof.
  pose proof (effective_limit_range limit) as R.
  unfold effective_limit at 1; cbn [arg]; z_cases.
Qed.

(** A statement that is not accepted is answered by the handler itself,
    before the database is opened. *)
Lemma query_db_rejected (sql : string) (limit : option Z) (store : Store drv) :
  accepted sql = false ->
  query_db drv sql limit store
  = (Raise (ValueError "Only SELECT queries are allowed."), store).
Proof.
  unfold accepted, query_db; intros H; rewrite H; reflexivity.
Qed.

(** An accepted statement is handed to the database as [sent] says. *)
Lemma query_db_accepted (sql : string) (limit : option Z) :
  accepted sql = true ->
  query_db drv sql limit = with_connection drv (fetch drv (sent sql limit)).
Proof.
  unfold accepted, query_db, sent, mentions_limit, effective_limit.
  intros H; rewrite H; simpl negb; cbv iota.
  rewrite limit_reset, contains_limit_strip.
  destruct (contains "limit" (lower sql)); reflexivity.
Qed.

Lemma sent_unchanged_iff (sql : string) (limit : option Z) :
  sent sql limit = strip sql <-> mentions_limit sql = true.
Proof.
  unfold sent; destruct (mentions_limit sql) eqn:E; split; intros H;
    try reflexivity; try discriminate.
  exfalso; unfold mentions_limit in E.
  rewrite <- contains_limit_strip, <- H, lower_append, contains_append_r in E;
    [discriminate|].
  rewrite lower_append; reflexivity.
Qed.

Lemma for_each_Forall2 {A B : Type} (f : A -> result B) (l : list A)
    (r : list B) :
  for_each f l = Ok r -> Forall2 (fun a b => f a = Ok b) l r.
Proof.
  revert r; induction l as [|a l IH]; simpl; intros r H.
  - inversion H; constructor.
  - unfold bind in H.
    destruct (f a) as [b|e] eqn:F; [|discriminate].
    destruct (for_each f l) as [bs|e]; [|discriminate].
    inversion H; subst r; constructor; [exact F | now apply IH].
Qed.

(** What [with_connection] and [fetch] return, case by case. *)
Lemma fetch_inv (stmt : string) (db db' : Conn drv) (r : result QueryResult) :
  fetch drv stmt db = (r, db') ->
  (exists e, execute drv stmt [] db = (Raise e, db') /\ r = Raise e)
  \/ exists fetched,
       execute drv stmt [] db = (Ok fetched, db')
       /\ let cols := match fetched with r0 :: _ => keys r0 | [] => [] end in
          r = match for_each (fun r0 => for_each (fun c => getitem r0 c) cols)
                      fetched with
              | Ok data => Ok {| columns := cols; rows := data |}
              | Raise e => Raise e
              end.
Proof.
  unfold fetch, mbind, lift, ret.
  destruct (execute drv stmt [] db) as [[fetched|e] db1] eqn:X.
  - intros H; right; exists fetched.
    destruct (for_each _ fetched) as [data|e]; inversion H; subst;
      split; reflexivity.
  - intros H; inversion H; subst; left; exists e; split; reflexivity.
Qed.

End QueryFacts.

(** C3, as the code has it.  A statement that, once stripped, does not begin
    with "select" is refused with [ValueError], whatever the limit, and the
    database is left alone.  A statement that does begin with it is never
    refused for its limit: the call behaves as with the limit in force; and
    it raises an error exactly when the storage layer raises that error,
    while connecting or executing, or when the lookup of a column in a
    fetched row raises it: such errors propagate unchanged, and nothing
    else is raised. *)
Theorem query_db_refuses_non_select (drv : Driver) (sql : string)
    (limit : option Z) (store : Store drv) :
  (accepted sql = true <-> exists rest, lower (strip sql) = "select" ++ rest)
  /\ (accepted sql = false ->
   query_db drv sql limit store
   = (Raise (ValueError "Only SELECT queries are allowed."), store))
  /\ (accepted sql = true ->
      query_db drv sql limit store
      = query_db drv sql (Some (effective_limit limit)) store
      /\ forall e, fst (query_db drv sql limit store) = Raise e <->
           connect drv store = Raise e
           \/ exists db, connect drv store = Ok db
               /\ (fst (execute drv (sent sql limit) [] db) = Raise e
                   \/ exists fetched,
                        fst (execute drv (sent sql limit) [] db) = Ok fetched
                        /\ for_each
                             (fun r =>
                                for_each (fun c => getitem r c)
                                  match fetched with
                                  | r0 :: _ => keys r0
                                  | [] => []
                                  end) fetched = Raise e)).
Proof.
  split; [apply startswith_iff|].
  split; [apply query_db_rejected|].
  intros A; split.
  - rewrite !query_db_accepted by exact A.
    unfold sent; now rewrite effective_limit_idem.
  - intros e; rewrite query_db_accepted by exact A.
    unfold with_connection.
    destruct (connect drv store) as [db|e0]; simpl.
    + destruct (fetch drv (sent sql limit) db) as [r db'] eqn:F; simpl.
      apply fetch_inv in F; destruct F as [[e1 [X E]] | [fetched [X E]]].
      * subst r; split.
        -- intros H; right; exists db; split; [reflexivity|].
           left; rewrite X; simpl; inversion H; reflexivity.
        -- intros [H | [db0 [C [H | [fetched [H _]]]]]]; try discriminate;
             inversion C; subst db0; rewrite X in H; simpl in H;
             [inversion H; reflexivity | discriminate].
      * simpl in E; split.
        -- intros H; right; exists db; split; [reflexivity|].
           right; exists fetched; rewrite X; split; [reflexivity|].
           subst r; destruct (for_each _ fetched); [discriminate|].
           inversion H; reflexivity.
        -- intros [H | [db0 [C [H | [fetched0 [H G]]]]]]; try discriminate;
             inversion C; subst db0; rewrite X in H; simpl in H;
             [discriminate|].
           inversion H; subst fetched0; subst r; rewrite G; reflexivity.
    + split.
      * intros H; left; congruence.
      * intros [H | [db [C _]]]; [congruence | discriminate].
Qed.

Lemma query_db_refuses_non_select_witness :
  accepted "DELETE FROM users" = false
  /\ query_db Sqlite.driver "DELETE FROM users" None (Some seeded)
     = (Raise (ValueError "Only SELECT queries are allowed."), Some seeded)
  /\ accepted "SELECT * FROM users" = true
  /\ query_db Sqlite.driver "SELECT * FROM users" (Some 2000) (Some seeded)
     = query_db Sqlite.driver "SELECT * FROM users" (Some 100) (Some seeded)
  /\ fst (query_db (stub_driver (Raise (OperationalError "disk I/O error")))
            "SELECT * FROM users" None None)
     = Raise (OperationalError "disk I/O error").
Proof.
  split; [reflexivity|].
  split.
  { destruct (query_db_refuses_non_select Sqlite.driver "DELETE FROM users" None
                (Some seeded)) as [_ [H _]].
    apply H; reflexivity. }
  split; [reflexivity|].
  split.
  { destruct (query_db_refuses_non_select Sqlite.driver "SELECT * FROM users"
                (Some 2000) (Some seeded)) as [_ [_ H]].
    destruct (H eq_refl) as [H1 _]. exact H1. }
  destruct (query_db_refuses_non_select
              (stub_driver (Raise (OperationalError "disk I/O error")))
              "SELECT * FROM users" None None) as [_ [_ H]].
  destruct (H eq_refl) as [_ H2].
  apply (proj2 (H2 (OperationalError "disk I/O error"))).
  right; exists tt; split; [reflexivity|]; left; reflexivity.
Defined.

(** C3 as stated fails: an accepted statement can raise.  The statement
    below begins with "select", and the engine knows no table of that
    name. *)
Lemma query_db_select_of_missing_table_raises :
  accepted "SELECT * FROM nosuch" = true
  /\ fst (query_db Sqlite.driver "SELECT * FROM nosuch" None (Some seeded))
     = Raise (OperationalError "no such table: nosuch")
  /\ ~ (is_raise (fst (query_db Sqlite.driver "SELECT * FROM nosuch" None
                         (Some seeded))) = true
        <-> accepted "SELECT * FROM nosuch" = false).
Proof.
  split; [reflexivity|].
  split; [vm_compute; reflexivity|].
  intros [H _].
  assert (E : is_raise (fst (query_db Sqlite.driver "SELECT * FROM nosuch" None
                               (Some seeded))) = true)
    by (vm_compute; reflexivity).
  specialize (H E); discriminate.
Qed.

(** C4.  The limit used in the appended clause lies in 1..1000: it is the
    one given when that lies in the range, and 100 when it is left out,
    below 1 or above 1000.  For an accepted statement that does not mention
    a limit, the statement run is the stripped text without its trailing
    semicolons, followed by [" LIMIT "] and that number. *)
Theorem query_db_limit_in_range (drv : Driver) (sql : string) (limit : option Z) :
  1 <= effective_limit limit <= 1000
  /\ effective_limit None = 100
  /\ (forall l, 1 <= l <= 1000 -> effective_limit (Some l) = l)
  /\ (forall l, l < 1 \/ 1000 < l -> effective_limit (Some l) = 100)
  /\ (accepted sql = true -> mentions_limit sql = false ->
      query_db drv sql limit
      = with_connection drv
          (fetch drv (rstrip ";" (strip sql) ++ " LIMIT "
                      ++ str_int (effective_limit limit)))).
Proof.
  split; [apply effective_limit_range|].
  split; [reflexivity|].
  split; [|split].
  - intros l H; unfold effective_limit; cbn [arg]; z_cases.
  - intros l H; unfold effective_limit; cbn [arg]; z_cases.
  - intros A N; rewrite query_db_accepted by exact A.
    unfold sent; now rewrite N.
Qed.

Lemma query_db_limit_in_range_witness :
  accepted "SELECT * FROM users;" = true
  /\ mentions_limit "SELECT * FROM users;" = false
  /\ query_db Sqlite.driver "SELECT * FROM users;" (Some 2000)
     = with_connection Sqlite.driver
         (fetch Sqlite.driver "SELECT * FROM users LIMIT 100")
  /\ query_db Sqlite.driver "SELECT * FROM users;" (Some 7)
     = with_connection Sqlite.driver
         (fetch Sqlite.driver "SELECT * FROM users LIMIT 7").
Proof.
  split; [reflexivity|].
  split; [reflexivity|].
  split.
  - destruct (query_db_limit_in_range Sqlite.driver "SELECT * FROM users;"
                (Some 2000)) as [_ [_ [_ [_ H]]]].
    exact (H eq_refl eq_refl).
  - destruct (query_db_limit_in_range Sqlite.driver "SELECT * FROM users;"
                (Some 7)) as [_ [_ [_ [_ H]]]].
    exact (H eq_refl eq_refl).
Defined.

(** C5.  For an accepted statement, the statement run is the stripped text
    itself when "limit" occurs in it in any case, and otherwise the stripped
    text without its trailing semicolons followed by the limit clause; the
    text is run unchanged exactly when it mentions "limit".  A statement
    that names a column [limit_reached] is run as it stands. *)
Theorem query_db_appends_limit_unless_mentioned (drv : Driver) (sql : string)
    (limit : option Z) :
  accepted sql = true ->
  query_db drv sql limit = with_connection drv (fetch drv (sent sql limit))
  /\ (mentions_limit sql = true -> sent sql limit = strip sql)
  /\ (mentions_limit sql = false ->
      sent sql limit
      = rstrip ";" (strip sql) ++ " LIMIT " ++ str_int (effective_limit limit))
  /\ (sent sql limit = strip sql <-> mentions_limit sql = true)
  /\ (mentions_limit sql = true <-> exists a b, lower sql = a ++ "limit" ++ b)
  /\ (exists semis,
        strip sql = rstrip ";" (strip sql) ++ semis
        /\ all_chars (Ascii.eqb ";") semis = true
        /\ last_char (rstrip ";" (strip sql)) <> Some ";"%char)
  /\ sent "SELECT limit_reached FROM users" limit
     = "SELECT limit_reached FROM users".
Proof.
  intros A.
  split; [now apply query_db_accepted|].
  split; [intros H; unfold sent; now rewrite H|].
  split; [intros H; unfold sent; now rewrite H|].
  split; [apply sent_unchanged_iff|].
  split; [apply contains_iff|].
  split; [|reflexivity].
  destruct (rstrip_with_split (fun c => mem_char c ";") (strip sql)) as [t [E T]].
  exists t; split; [exact E|]; split.
  - apply (all_chars_weaken _ _ t T).
    intros c H; unfold mem_char in H; rewrite orb_false_r in H.
    now rewrite Ascii.eqb_sym.
  - intros L; apply rstrip_with_last in L; simpl in L; discriminate.
Qed.

Lemma query_db_appends_limit_unless_mentioned_witness :
  accepted "select limit_reached from users;" = true
  /\ query_db Sqlite.driver "select limit_reached from users;" (Some 5)
     = with_connection Sqlite.driver
         (fetch Sqlite.driver "select limit_reached from users;")
  /\ query_db Sqlite.driver " SELECT * FROM users;; " (Some 5)
     = with_connection Sqlite.driver
         (fetch Sqlite.driver "SELECT * FROM users LIMIT 5").
Proof.
  split; [reflexivity|].
  split.
  - destruct (query_db_appends_limit_unless_mentioned Sqlite.driver
                "select limit_reached from users;" (Some 5) eq_refl) as [H _].
    exact H.
  - destruct (query_db_appends_limit_unless_mentioned Sqlite.driver
                " SELECT * FROM users;; " (Some 5) eq_refl) as [H _].
    exact H.
Defined.

(** C9.  Whenever [query_db] returns a result, every row of it has as many
    values as the result has columns, and the value at each position is the
    one the fetched row holds under the column name at that position. *)
Theorem query_result_rows_match_columns (drv : Driver) (sql : string)
    (limit : option Z) (store store' : Store drv) (qr : QueryResult) :
  query_db drv sql limit store = (Ok qr, store') ->
  Forall (fun row => List.length row = List.length (columns qr)) (rows qr)
  /\ exists db fetched,
       connect drv store = Ok db
       /\ fst (execute drv (sent sql limit) [] db) = Ok fetched
       /\ Forall2
            (fun r row => Forall2 (fun c v => getitem r c = Ok v) (columns qr) row)
            fetched (rows qr).
Proof.
  intros H.
  destruct (accepted sql) eqn:A;
    [|rewrite query_db_rejected in H by exact A; discriminate].
  rewrite query_db_accepted in H by exact A.
  unfold with_connection in H.
  destruct (connect drv store) as [db|e]; [|discriminate].
  destruct (fetch drv (sent sql limit) db) as [r db'] eqn:F.
  inversion H; subst r; clear H.
  apply fetch_inv in F; destruct F as [[e [_ E]] | [fetched [X E]]];
    [discriminate|].
  simpl in E.
  destruct (for_each _ fetched) as [data|e] eqn:D; [|discriminate].
  inversion E; subst qr; clear E; simpl.
  apply for_each_Forall2 in D.
  assert (D' : Forall2
                 (fun r row =>
                    Forall2 (fun c v => getitem r c = Ok v)
                      match fetched with r0 :: _ => keys r0 | [] => [] end row)
                 fetched data).
  { eapply Forall2_impl; [|exact D].
    intros r row R; now apply for_each_Forall2 in R. }
  split.
  - clear X D; revert D'.
    generalize (match fetched with r0 :: _ => keys r0 | [] => [] end).
    intros cols D'; induction D' as [|r row l l' R _ IH]; constructor.
    + symmetry; eapply Forall2_length; exact R.
    + exact IH.
  - exists db, fetched; rewrite X; repeat split; exact D'.
Qed.

Lemma query_result_rows_match_columns_witness :
  query_db Sqlite.driver "SELECT * FROM users" None (Some seeded)
  = (Ok {| columns := ["id"; "name"; "messages"]; rows := seed_rows |},
     Some seeded)
  /\ Forall (fun row => List.length row = 3%nat) seed_rows.
Proof.
  split; [vm_compute; reflexivity|].
  exact (proj1 (query_result_rows_match_columns Sqlite.driver
                  "SELECT * FROM users" None (Some seeded) (Some seeded)
                  {| columns := ["id"; "name"; "messages"]; rows := seed_rows |}
                  eq_refl)).
Defined.

(** C10.  When an accepted statement fetches no row, [query_db] returns a
    result with no column and no row. *)
Theorem query_db_empty_result_has_no_columns (drv : Driver) (sql : string)
    (limit : option Z) (store : Store drv) (db db' : Conn drv) :
  accepted sql = true ->
  connect drv store = Ok db ->
  execute drv (sent sql limit) [] db = (Ok [], db') ->
  query_db drv sql limit store
  = (Ok {| columns := []; rows := [] |}, Some (close drv db')).
Proof.
  intros A C X; rewrite query_db_accepted by exact A.
  unfold with_connection, fetch, mbind; rewrite C, X; reflexivity.
Qed.

Lemma query_db_empty_result_has_no_columns_witness :
  accepted "SELECT * FROM users LIMIT 0" = true
  /\ query_db Sqlite.driver "SELECT * FROM users LIMIT 0" None (Some seeded)
     = (Ok {| columns := []; rows := [] |}, Some seeded).
Proof.
  split; [reflexivity|].
  exact (query_db_empty_result_has_no_columns Sqlite.driver
           "SELECT * FROM users LIMIT 0" None (Some seeded)
           (Sqlite.mkconn seeded None) (Sqlite.mkconn seeded None)
           eq_refl eq_refl eq_refl).
Defined.

(** ** The first start and the later ones *)

Lemma _ensure_db_keeps (drv : Driver) (d : Db drv) :
  _ensure_db drv (Some d) = (Ok tt, Some d).
Proof. reflexivity. Qed.

Lemma started_keeps (drv : Driver) (n : nat) (d : Db drv) :
  started drv n (Some d) = (Ok tt, Some d).
Proof.
  induction n as [|n IH]; [reflexivity|].
  cbn [started]; unfold mbind; rewrite _ensure_db_keeps; exact IH.
Qed.

Lemma _ensure_db_seeds : _ensure_db Sqlite.driver None = (Ok tt, Some seeded).
Proof. vm_compute; reflexivity. Qed.

(** C2, as the code has it.  An initializer that finds the store leaves it
    as it is.  From an absent store, any number of starts, at least one,
    leaves the seeded store, and there [query_db("SELECT * FROM users")]
    returns the columns [id], [name], [messages] and the four seed rows,
    each once. *)
Theorem query_db_returns_seed_rows_once (n : nat) :
  (forall (drv : Driver) (d : Db drv), _ensure_db drv (Some d) = (Ok tt, Some d))
  /\ started Sqlite.driver (S n) None = (Ok tt, Some seeded)
  /\ query_db Sqlite.driver "SELECT * FROM users" None (Some seeded)
     = (Ok {| columns := ["id"; "name"; "messages"];
              rows := [ [Integer 1; Txt "alice"; Integer 5];
                        [Integer 2; Txt "bob"; Integer 3];
                        [Integer 3; Txt "carol"; Integer 12];
                        [Integer 4; Txt "dave"; Integer 0] ] |},
        Some seeded).
Proof.
  split; [exact _ensure_db_keeps|].
  split; [|vm_compute; reflexivity].
  cbn [started]; unfold mbind; rewrite _ensure_db_seeds.
  apply (started_keeps Sqlite.driver).
Qed.

(** C2 as stated fails: the third column is called [messages], the name
    given in the [CREATE TABLE] statement of line 110, not
    [message_count]. *)
Lemma query_db_columns_are_not_message_count :
  exists qr,
    fst (query_db Sqlite.driver "SELECT * FROM users" None
           (snd (started Sqlite.driver 1 None))) = Ok qr
    /\ List.length (rows qr) = 4%nat
    /\ columns qr = ["id"; "name"; "messages"]
    /\ columns qr <> ["id"; "name"; "message_count"].
Proof.
  eexists; split; [vm_compute; reflexivity|].
  split; [reflexivity|]; split; [reflexivity|]; discriminate.
Qed.

(** * Further properties of the handlers *)

(** ** The resolver *)

Lemma under_root_iff (r q : PosixPath) :
  q = r \/ In r (parents q)
  <-> root q = root r /\ exists rel, parts q = (parts r ++ rel)%list.
Proof.
  rewrite In_parents; split.
  - intros [->|[R [k [K P]]]].
    + split; [reflexivity | exists []; now rewrite app_nil_r].
    + split; [now symmetry|].
      exists (skipn k (parts q)); rewrite P; symmetry; apply firstn_skipn.
  - intros [R [rel P]]; destruct rel as [|x rel].
    + left; rewrite app_nil_r in P; destruct q, r; simpl in *; now subst.
    + right; split; [now symmetry|].
      exists (List.length (parts r)); split.
      * rewrite P, length_app; simpl; lia.
      * rewrite P, firstn_app, Nat.sub_diag, firstn_all; simpl.
        now rewrite app_nil_r.
Qed.

(** X1.  Once the home directory is expanded and the path resolved, the
    resolver accepts the resolved path exactly when it has the root of
    [ROOT_DIR] and its components extend those of [ROOT_DIR], component by
    component. *)
Theorem _safe_path_accepts_iff_under_root (fs : FileSystem) (s : string)
    (p q : PosixPath) :
  expanduser (userhome fs) (Path s) = Ok p ->
  resolve fs (if is_absolute p then p else ROOT_DIR fs // p) = Ok q ->
  (_safe_path fs s = Ok (Some q)
   <-> root q = root (ROOT_DIR fs)
       /\ exists rel, parts q = (parts (ROOT_DIR fs) ++ rel)%list)
  /\ (_safe_path fs s = Ok None
      <-> ~ (root q = root (ROOT_DIR fs)
             /\ exists rel, parts q = (parts (ROOT_DIR fs) ++ rel)%list)).
Proof.
  intros E R.
  destruct (_safe_path_decides fs s p E) as [_ D].
  destruct (D q R) as [D1 D2].
  rewrite <- under_root_iff; split; assumption.
Qed.

Lemma _safe_path_accepts_iff_under_root_witness :
  _safe_path Disk.example "data/../notes.txt"
  = Ok (Some (mkpath "/" ["srv"; "app"; "notes.txt"]))
  /\ _safe_path Disk.example "/srv/application" = Ok None.
Proof.
  split.
  - apply (proj1 (_safe_path_accepts_iff_under_root Disk.example
                    "data/../notes.txt" (Path "data/../notes.txt")
                    (mkpath "/" ["srv"; "app"; "notes.txt"]) eq_refl eq_refl)).
    split; [reflexivity | exists ["notes.txt"]; reflexivity].
  - apply (proj2 (_safe_path_accepts_iff_under_root Disk.example
                    "/srv/application" (Path "/srv/application")
                    (mkpath "/" ["srv"; "application"]) eq_refl eq_refl)).
    intros [_ [rel H]]; discriminate.
Defined.

Lemma os_path_expanduser_raises (uh : string -> result (option string))
    (s : string) (e : exn) :
  os_path_expanduser uh s = Raise e -> exists user, uh user = Raise e.
Proof.
  unfold os_path_expanduser, bind.
  destruct s as [|c s']; [discriminate|].
  destruct (Ascii.eqb_spec c "~") as [->|N].
  - destruct (until_sep s') as [user rest].
    destruct (uh user) as [[home|]|e0] eqn:U; try discriminate.
    intros H; inversion H; subst; now exists user.
  - destruct c as [b0 b1 b2 b3 b4 b5 b6 b7].
    destruct b0, b1, b2, b3, b4, b5, b6, b7; try discriminate.
    contradiction.
Qed.

Lemma expanduser_raises (uh : string -> result (option string)) (p : PosixPath)
    (e : exn) :
  expanduser uh p = Raise e ->
  exists first rest,
    p = mkpath "" (first :: rest)
    /\ startswith "~" first = true
    /\ ((exists user, uh user = Raise e)
        \/ (e = RuntimeError "Could not determine home directory."
            /\ exists homedir,
                 os_path_expanduser uh first = Ok homedir
                 /\ startswith "~" homedir = true)).
Proof.
  unfold expanduser, bind; destruct p as [r ps]; cbn [root parts].
  destruct r as [|c r]; [|discriminate].
  destruct ps as [|first rest]; [discriminate|].
  destruct (startswith "~" first) eqn:T; [|discriminate].
  intros H; exists first, rest; split; [reflexivity|]; split; [exact T|].
  destruct (os_path_expanduser uh first) as [homedir|e0] eqn:X.
  - destruct (startswith "~" homedir) eqn:S; [|discriminate].
    right; inversion H; split; [reflexivity|].
    exists homedir; split; [reflexivity | exact S].
  - left; inversion H; subst; exact (os_path_expanduser_raises _ _ _ X).
Qed.

(** X2.  The resolver raises exactly when [expanduser] raises: every
    failure of [resolve] becomes a rejection.  That happens only on a
    relative path whose first component begins with a tilde, and the error
    is either the one raised by the lookup of the home directory (a
    [ValueError] for a user name that holds a null character) or the
    [RuntimeError] raised when the expanded text still begins with a tilde
    (no home was found, or the home itself begins with a tilde). *)
Theorem _safe_path_raises_what_expanduser_raises (fs : FileSystem) (s : string)
    (e : exn) :
  (_safe_path fs s = Raise e <-> expanduser (userhome fs) (Path s) = Raise e)
  /\ (_safe_path fs s = Raise e ->
      exists first rest,
        Path s = mkpath "" (first :: rest)
        /\ startswith "~" first = true
        /\ ((exists user, userhome fs user = Raise e)
            \/ (e = RuntimeError "Could not determine home directory."
                /\ exists homedir,
                     os_path_expanduser (userhome fs) first = Ok homedir
                     /\ startswith "~" homedir = true))).
Proof.
  assert (X : _safe_path fs s = Raise e
              <-> expanduser (userhome fs) (Path s) = Raise e).
  { unfold _safe_path, bind.
    destruct (expanduser (userhome fs) (Path s)) as [p|e0].
    - destruct (resolve fs _) as [q|]; [destruct (_ || _)|];
        split; discriminate.
    - split; intros H; inversion H; reflexivity. }
  split; [exact X|].
  intros H; apply X in H; exact (expanduser_raises _ _ _ H).
Qed.

Lemma _safe_path_raises_what_expanduser_raises_witness :
  _safe_path Disk.example "~nosuchuser/notes.txt"
  = Raise (RuntimeError "Could not determine home directory.")
  /\ _safe_path Disk.example
       (String "~" (String "a" (String "000" (String "b" ""))))
     = Raise (ValueError "embedded null byte")
  /\ exists first rest,
       Path "~nosuchuser/notes.txt" = mkpath "" (first :: rest)
       /\ startswith "~" first = true.
Proof.
  split; [reflexivity|]; split.
  - apply (proj1 (_safe_path_raises_what_expanduser_raises Disk.example
                    (String "~" (String "a" (String "000" (String "b" ""))))
                    (ValueError "embedded null byte"))).
    reflexivity.
  - destruct (proj2 (_safe_path_raises_what_expanduser_raises Disk.example
                       "~nosuchuser/notes.txt"
                       (RuntimeError "Could not determine home directory."))
                eq_refl)
      as [first [rest [P [T _]]]].
    exists first, rest; split; assumption.
Defined.

(** ** read_file *)

(** X3.  Whatever text [read_file] returns, other than the empty one, comes
    from a path the resolver accepted, which is [ROOT_DIR] or below it and
    is a regular file: it is the content cut by [max_bytes], or the message
    of the error raised by the read. *)
Theorem read_file_discloses_only_under_root (fs : FileSystem) (s : string)
    (max_bytes : option Z) (t : string) :
  read_file fs s max_bytes = Ok t -> t <> "" ->
  exists q,
    _safe_path fs s = Ok (Some q)
    /\ (root q = root (ROOT_DIR fs)
        /\ exists rel, parts q = (parts (ROOT_DIR fs) ++ rel)%list)
    /\ path_exists fs q = Ok true /\ is_file fs q = Ok true
    /\ ((exists text, read_text fs q = Ok text
                      /\ t = slice_to text (arg max_bytes 2000))
        \/ (exists e, read_text fs q = Raise e /\ t = "ERROR: " ++ str_exn e)).
Proof.
  unfold read_file, bind; intros H N.
  destruct (_safe_path fs s) as [[q|]|e] eqn:S; try discriminate;
    [|inversion H; congruence].
  destruct (path_exists fs q) as [[]|e] eqn:E; try discriminate;
    [|inversion H; congruence].
  destruct (is_file fs q) as [[]|e] eqn:F; try discriminate;
    [|inversion H; congruence].
  simpl in H; exists q; split; [reflexivity|]; split.
  - apply under_root_iff.
    destruct (_safe_path_accepts fs s q S) as [_ [_ [_ [D _]]]]; exact D.
  - split; [exact E|]; split; [exact F|].
    destruct (read_text fs q) as [text|e]; inversion H.
    + left; exists text; split; reflexivity.
    + right; exists e; split; reflexivity.
Qed.

Lemma read_file_discloses_only_under_root_witness :
  read_file Disk.example "notes.txt" (Some 8) = Ok "remember"
  /\ exists q, _safe_path Disk.example "notes.txt" = Ok (Some q)
              /\ is_file Disk.example q = Ok true.
Proof.
  split; [reflexivity|].
  destruct (read_file_discloses_only_under_root Disk.example "notes.txt"
              (Some 8) "remember" eq_refl) as [q [S [_ [_ [F _]]]]];
    [discriminate|].
  exists q; split; assumption.
Defined.

(** X4.  [read_file] raises only what the resolver raises or what the tests
    [exists] and [is_file] raise; an error of the read itself never
    leaves it. *)
Theorem read_file_raises_only_before_reading (fs : FileSystem) (s : string)
    (max_bytes : option Z) (e : exn) :
  read_file fs s max_bytes = Raise e ->
  _safe_path fs s = Raise e
  \/ exists q,
       _safe_path fs s = Ok (Some q)
       /\ (path_exists fs q = Raise e
           \/ (path_exists fs q = Ok true /\ is_file fs q = Raise e)).
Proof.
  unfold read_file, bind; intros H.
  destruct (_safe_path fs s) as [[q|]|e0] eqn:S; try discriminate;
    [|left; inversion H; reflexivity].
  right; exists q; split; [reflexivity|].
  destruct (path_exists fs q) as [[]|e1] eqn:E; try discriminate;
    [|left; inversion H; reflexivity].
  right; split; [reflexivity|].
  destruct (is_file fs q) as [[]|e2] eqn:F; try discriminate;
    [|inversion H; reflexivity].
  simpl in H; destruct (read_text fs q); discriminate.
Qed.

Lemma read_file_raises_only_before_reading_witness :
  read_file Disk.example "~nosuchuser" None
  = Raise (RuntimeError "Could not determine home directory.")
  /\ _safe_path Disk.example "~nosuchuser"
     = Raise (RuntimeError "Could not determine home directory.").
Proof.
  split; [reflexivity|].
  destruct (read_file_raises_only_before_reading Disk.example "~nosuchuser" None
              (RuntimeError "Could not determine home directory.") eq_refl)
    as [H | [q [H _]]]; [exact H | discriminate].
Defined.

(** ** list_dir *)

Lemma name_child (p : PosixPath) (n : string) : name (child p n) = n.
Proof. unfold name, child; cbn [parts]; apply last_last. Qed.

Lemma for_each_map {A B : Type} (f : A -> result B) (g : A -> B) (l : list A) :
  (forall a, In a l -> f a = Ok (g a)) -> for_each f l = Ok (map g l).
Proof.
  induction l as [|a l IH]; intros H; [reflexivity|].
  cbn [for_each map]; unfold bind.
  rewrite (H a (or_introl eq_refl)), IH; [reflexivity|].
  intros b Hb; apply H; now right.
Qed.

(** X5.  [list_dir] (of ["."] when no path is given) returns the empty list
    when the resolver rejects the path, when the path does not exist and
    when it is not a directory; for a directory it returns one entry per
    name of [os.listdir], in that order: the name, followed by a slash when
    the child is a directory. *)
Theorem list_dir_outcomes (fs : FileSystem) (ds : Directories)
    (path : option string) :
  (_safe_path fs (arg path ".") = Ok None -> list_dir fs ds path = Ok [])
  /\ forall p, _safe_path fs (arg path ".") = Ok (Some p) ->
       (path_exists fs p = Ok false -> list_dir fs ds path = Ok [])
       /\ (path_exists fs p = Ok true -> is_dir ds p = Ok false ->
           list_dir fs ds path = Ok [])
       /\ (path_exists fs p = Ok true -> is_dir ds p = Ok true ->
           forall (names : list string) (isdir : string -> bool),
             listdir ds p = Ok names ->
             (forall n, In n names -> is_dir ds (child p n) = Ok (isdir n)) ->
             list_dir fs ds path
             = Ok (map (fun n => n ++ (if isdir n then "/" else "")) names)).
Proof.
  unfold list_dir, bind; split.
  - intros H; rewrite H; reflexivity.
  - intros p H; rewrite H.
    split; [intros E; rewrite E; reflexivity|].
    split; [intros E D; rewrite E, D; reflexivity|].
    intros E D names isdir L C; rewrite E, D; cbn [negb].
    unfold iterdir, bind; rewrite L.
    rewrite (for_each_map _ (fun c => name c ++ (if isdir (name c) then "/" else ""))).
    + rewrite map_map; f_equal; apply map_ext; intros n.
      now rewrite name_child.
    + intros c Hc; apply in_map_iff in Hc; destruct Hc as [n [<- Hn]].
      unfold bind; rewrite (C n Hn), name_child; reflexivity.
Qed.

Lemma list_dir_outcomes_witness :
  list_dir Disk.example (disk_dirs example_tree) None
  = Ok ["notes.txt"; "data/"]
  /\ list_dir Disk.example (disk_dirs example_tree) (Some "notes.txt") = Ok []
  /\ list_dir Disk.example (disk_dirs example_tree) (Some "..") = Ok [].
Proof.
  split.
  { destruct (list_dir_outcomes Disk.example (disk_dirs example_tree) None)
      as [_ H].
    destruct (H (Path "/srv/app") eq_refl) as [_ [_ H3]].
    apply (H3 eq_refl eq_refl ["notes.txt"; "data"]
             (fun n => String.eqb n "data") eq_refl).
    intros n [<-|[<-|[]]]; reflexivity. }
  split.
  { destruct (list_dir_outcomes Disk.example (disk_dirs example_tree)
                (Some "notes.txt")) as [_ H].
    destruct (H (Path "/srv/app/notes.txt") eq_refl) as [_ [H2 _]].
    apply H2; reflexivity. }
  destruct (list_dir_outcomes Disk.example (disk_dirs example_tree) (Some ".."))
    as [H _].
  apply H; reflexivity.
Defined.

(** X6.  A listing that is not empty is the listing of a directory the
    resolver accepted, which is [ROOT_DIR] or below it; it holds one entry
    for each name of that directory and none for what lies deeper, and each
    entry is the name, with a slash exactly for the children that are
    directories. *)
Theorem list_dir_lists_children_under_root (fs : FileSystem) (ds : Directories)
    (path : option string) (l : list string) :
  list_dir fs ds path = Ok l -> l <> [] ->
  exists q names,
    _safe_path fs (arg path ".") = Ok (Some q)
    /\ (root q = root (ROOT_DIR fs)
        /\ exists rel, parts q = (parts (ROOT_DIR fs) ++ rel)%list)
    /\ is_dir ds q = Ok true
    /\ listdir ds q = Ok names
    /\ Forall2 (fun n entry =>
                  (is_dir ds (child q n) = Ok true /\ entry = n ++ "/")
                  \/ (is_dir ds (child q n) = Ok false /\ entry = n))
         names l.
Proof.
  unfold list_dir, bind; intros H N.
  destruct (_safe_path fs (arg path ".")) as [[q|]|e] eqn:S; try discriminate;
    [|inversion H; congruence].
  destruct (path_exists fs q) as [[]|e] eqn:E; try discriminate;
    [|inversion H; congruence].
  destruct (is_dir ds q) as [[]|e] eqn:D; try discriminate;
    [|inversion H; congruence].
  cbn [negb] in H; unfold iterdir, bind in H.
  destruct (listdir ds q) as [names|e] eqn:L; [|discriminate].
  exists q, names; split; [reflexivity|]; split.
  { apply under_root_iff.
    destruct (_safe_path_accepts fs (arg path ".") q S) as [_ [_ [_ [U _]]]].
    exact U. }
  split; [exact D|]; split; [exact L|].
  apply for_each_Forall2 in H.
  clear - H; revert l H; induction names as [|n names IH]; intros l H;
    cbn [map] in H; inversion H as [|c entry cs l' Hc Hl]; subst; constructor.
  - unfold bind in Hc; rewrite name_child in Hc.
    destruct (is_dir ds (child q n)) as [[]|e]; inversion Hc.
    + left; split; reflexivity.
    + right; split; [reflexivity|].
      clear; induction n as [|a n IHn]; simpl; [reflexivity | now f_equal].
  - now apply IH.
Qed.

Lemma list_dir_lists_children_under_root_witness :
  list_dir Disk.example (disk_dirs example_tree) None
  = Ok ["notes.txt"; "data/"]
  /\ exists q names,
       _safe_path Disk.example "." = Ok (Some q)
       /\ listdir (disk_dirs example_tree) q = Ok names
       /\ List.length names = 2%nat.
Proof.
  split; [reflexivity|].
  destruct (list_dir_lists_children_under_root Disk.example
              (disk_dirs example_tree) None ["notes.txt"; "data/"] eq_refl)
    as [q [names [S [_ [_ [L F]]]]]]; [discriminate|].
  exists q, names; split; [exact S|]; split; [exact L|].
  apply Forall2_length in F; exact F.
Defined.

(** ** echo *)

Lemma echo_take (text : string) (repeat : option Z) :
  echo text repeat
  = take 2000 (join " " (List.repeat text
                           (Z.to_nat (Z.min (Z.max (arg repeat 1) 1) 10)))).
Proof.
  unfold echo; rewrite echo_clamp, list_mul_single.
  set (out := join " " _).
  destruct (Nat.leb_spec (length out) 2000) as [H|H].
  - symmetry; apply take_all, H.
  - apply slice_to_nonneg; lia.
Qed.

Lemma length_join_repeat (sep text : string) (n : nat) :
  length (join sep (List.repeat text n))
  = (n * length text + (n - 1) * length sep)%nat.
Proof.
  induction n as [|n IH]; [reflexivity|].
  destruct n as [|n]; [simpl; lia|].
  change (List.repeat text (S (S n))) with (text :: List.repeat text (S n)).
  rewrite join_cons by discriminate.
  rewrite !length_append, IH; simpl; lia.
Qed.

Lemma take_append (n : nat) (a b : string) :
  (length a <= n)%nat -> take n (a ++ b) = a ++ take (n - length a) b.
Proof.
  revert n; induction a as [|c a IH]; intros n H; simpl in *.
  - now rewrite Nat.sub_0_r.
  - destruct n as [|n]; [lia|]; simpl; f_equal; apply IH; lia.
Qed.

(** X7.  The length of what [echo] returns is the smaller of 2000 and the
    length of the joined repetitions: [n] copies of the text and [n - 1]
    spaces, for [n = min (max repeat 1) 10]. *)
Theorem echo_length (text : string) (repeat : option Z) :
  let n := Z.to_nat (Z.min (Z.max (arg repeat 1) 1) 10) in
  length (echo text repeat) = Nat.min 2000 (n * length text + (n - 1)).
Proof.
  intros n; rewrite echo_take, length_take, length_join_repeat.
  fold n; simpl length; now rewrite Nat.mul_1_r.
Qed.

(** X8.  For a text of at most 2000 characters, what [echo] returns begins
    with the text, and is the text itself when [repeat] is at most 1 or is
    left out. *)
Theorem echo_begins_with_text (text : string) (repeat : option Z) :
  (length text <= 2000)%nat ->
  startswith text (echo text repeat) = true
  /\ (arg repeat 1 <= 1 -> echo text repeat = text).
Proof.
  intros H; rewrite echo_take.
  set (n := Z.to_nat (Z.min (Z.max (arg repeat 1) 1) 10)).
  assert (N : (1 <= n)%nat) by (subst n; lia).
  split.
  - apply startswith_iff.
    destruct n as [|[|k]]; [lia | |].
    + exists ""; cbn [List.repeat join]; rewrite take_all by exact H.
      clear; induction text as [|c t IH]; simpl; [reflexivity | now f_equal].
    + change (List.repeat text (S (S k))) with (text :: List.repeat text (S k)).
      rewrite join_cons by discriminate.
      rewrite take_append by exact H. eexists; reflexivity.
  - intros R; assert (E : n = 1%nat) by (subst n; lia).
    rewrite E; cbn [List.repeat join]; apply take_all, H.
Qed.

Lemma echo_begins_with_text_witness :
  (length "hi" <= 2000)%nat
  /\ startswith "hi" (echo "hi" (Some 3)) = true
  /\ echo "hi" None = "hi".
Proof.
  assert (H : (length "hi" <= 2000)%nat) by (simpl; lia).
  split; [exact H|]; split.
  - exact (proj1 (echo_begins_with_text "hi" (Some 3) H)).
  - apply (proj2 (echo_begins_with_text "hi" None H)); simpl; lia.
Defined.

(** ** summarize *)

Lemma summarize_unfold (text : string) (max_sentences : option Z) :
  summarize text max_sentences
  = match sentences text with
    | [] => ""
    | _ :: _ =>
        join ". " (firstn (Z.to_nat (Z.max (arg max_sentences 3) 1))
                     (sentences text)) ++ "."
    end.
Proof.
  unfold summarize; rewrite filter_map_strip; fold (sentences text).
  destruct (sentences text) as [|x l]; [reflexivity|].
  assert (C : (if arg max_sentences 3 <? 1 then 1 else arg max_sentences 3)
              = Z.max (arg max_sentences 3) 1) by z_cases.
  rewrite C, slice_list_nonneg by lia.
  destruct (Z.to_nat (Z.max (arg max_sentences 3) 1)) as [|k] eqn:K; [lia|].
  reflexivity.
Qed.

Lemma all_chars_lstrip (p : ascii -> bool) (s : string) :
  all_chars p (lstrip_with p s) = all_chars p s.
Proof.
  induction s as [|c s IH]; [reflexivity|].
  cbn [lstrip_with]; destruct (p c) eqn:P; [|reflexivity].
  cbn [all_chars]; now rewrite P.
Qed.

Lemma truthy_rstrip (p : ascii -> bool) (s : string) :
  truthy (rstrip_with p s) = negb (all_chars p s).
Proof.
  induction s as [|c s IH]; [reflexivity|].
  cbn [rstrip_with all_chars]; rewrite IH, negb_involutive.
  destruct (p c && all_chars p s); reflexivity.
Qed.

Lemma truthy_strip (s : string) :
  truthy (strip s) = negb (all_chars isspace s).
Proof. unfold strip; now rewrite truthy_rstrip, all_chars_lstrip. Qed.

Lemma blank_pieces (text : string) :
  forallb (all_chars isspace) (split "." text)
  = all_chars period_or_space text.
Proof.
  induction text as [|c s IH]; [reflexivity|].
  cbn [split all_chars]; unfold period_or_space at 1.
  destruct (Ascii.eqb_spec c ".") as [->|N].
  - cbn [forallb all_chars]; exact IH.
  - pose proof (split_not_nil "." s) as NN.
    destruct (split "." s) as [|piece rest]; [contradiction|].
    cbn [forallb all_chars] in *; rewrite <- IH.
    now rewrite andb_assoc.
Qed.

Lemma sentences_nil_iff (text : string) :
  sentences text = [] <-> all_chars period_or_space text = true.
Proof.
  rewrite <- blank_pieces; unfold sentences.
  induction (split "." text) as [|piece l IH]; [split; reflexivity|].
  cbn [map filter forallb]; rewrite truthy_strip.
  destruct (all_chars isspace piece); cbn [negb andb].
  - exact IH.
  - split; discriminate.
Qed.

(** X9.  [summarize] returns the empty text exactly when the text holds
    nothing but periods and white space. *)
Theorem summarize_empty_iff_blank (text : string) (max_sentences : option Z) :
  summarize text max_sentences = ""
  <-> all_chars period_or_space text = true.
Proof.
  rewrite <- sentences_nil_iff, summarize_unfold.
  destruct (sentences text) as [|x l]; [split; reflexivity|].
  split; [|discriminate].
  intros H; apply (f_equal length) in H.
  rewrite length_append in H; simpl in H; lia.
Qed.

(** A segment as [summarize] keeps them: not empty, trimmed, without a
    period. *)
Lemma mem_char_append (c : ascii) (a b : string) :
  mem_char c (a ++ b) = mem_char c a || mem_char c b.
Proof.
  induction a as [|d a IH]; [reflexivity|].
  simpl; now rewrite IH, orb_assoc.
Qed.

Lemma lstrip_with_fixed (p : ascii -> bool) (t : string) :
  (forall c r, t = String c r -> p c = false) -> lstrip_with p t = t.
Proof.
  destruct t as [|c r]; [reflexivity|].
  intros H; cbn [lstrip_with]; now rewrite (H c r eq_refl).
Qed.

Lemma rstrip_with_fixed (p : ascii -> bool) (t : string) :
  (forall c, last_char t = Some c -> p c = false) -> rstrip_with p t = t.
Proof.
  induction t as [|c t IH]; [reflexivity|].
  intros H; cbn [rstrip_with].
  destruct t as [|d t].
  - cbn [rstrip_with truthy negb]; now rewrite (H c eq_refl).
  - rewrite IH by (intros x Hx; apply H; exact Hx).
    cbn [truthy negb]; now rewrite andb_false_r.
Qed.

Lemma strip_idempotent (s : string) : strip (strip s) = strip s.
Proof.
  destruct (strip_trims s) as [a [b [_ [_ [_ [F L]]]]]].
  unfold strip at 1.
  now rewrite (lstrip_with_fixed isspace _ F), (rstrip_with_fixed isspace _ L).
Qed.

Lemma sentences_spec (text seg : string) :
  In seg (sentences text) ->
  truthy seg = true /\ strip seg = seg /\ mem_char "." seg = false.
Proof.
  unfold sentences; rewrite filter_In, in_map_iff.
  intros [[piece [<- P]] T]; split; [exact T|]; split;
    [apply strip_idempotent|].
  pose proof (split_pieces "." text) as S.
  rewrite Forall_forall in S; specialize (S piece P).
  destruct (strip_trims piece) as [a [b [E _]]].
  rewrite E, !mem_char_append in S.
  apply orb_false_iff in S; destruct S as [_ S].
  apply orb_false_iff in S; now destruct S.
Qed.

Lemma split_append_sep (sep : ascii) (a b : string) :
  mem_char sep a = false ->
  split sep (a ++ String sep b) = a :: split sep b.
Proof.
  induction a as [|c a IH]; intros H.
  - cbn [append split]; now rewrite Ascii.eqb_refl.
  - cbn [mem_char] in H; apply orb_false_iff in H; destruct H as [H1 H2].
    cbn [append split].
    rewrite Ascii.eqb_sym, H1, (IH H2); reflexivity.
Qed.

Lemma split_joined (x : string) (l : list string) :
  Forall (fun seg => mem_char "." seg = false) (x :: l) ->
  split "." (join ". " (x :: l) ++ ".") = x :: (map (String " ") l ++ [""])%list.
Proof.
  revert x; induction l as [|y l IH]; intros x H; inversion H as [|? ? Hx Hl];
    subst.
  - cbn [join map app]; now rewrite split_append_sep.
  - rewrite join_cons by discriminate.
    replace ((x ++ ". " ++ join ". " (y :: l)) ++ ".")
      with (x ++ String "." (String " " (join ". " (y :: l) ++ "."))).
    + rewrite split_append_sep by exact Hx.
      cbn [split]; change (Ascii.eqb " " ".") with false; cbn iota.
      rewrite (IH y Hl); reflexivity.
    + clear; induction x as [|c x IHx]; simpl; [reflexivity | now f_equal].
Qed.

Lemma sentences_of_joined (x : string) (l : list string) :
  Forall (fun seg => truthy seg = true /\ strip seg = seg
                     /\ mem_char "." seg = false) (x :: l) ->
  sentences (join ". " (x :: l) ++ ".") = x :: l.
Proof.
  intros G; unfold sentences; rewrite split_joined.
  - assert (K : forall m,
               Forall (fun seg => truthy seg = true /\ strip seg = seg
                                  /\ mem_char "." seg = false) m ->
               filter truthy (map strip (map (String " ") m ++ [""])%list) = m).
    { induction m as [|y m IH]; intros Gm; [reflexivity|].
      inversion Gm as [|? ? [T [S _]] Gm']; subst.
      cbn [map app filter].
      change (strip (String " " y)) with (strip y).
      rewrite S, T, (IH Gm'); reflexivity. }
    inversion G as [|? ? [T [S _]] Gl]; subst.
    cbn [map filter]; rewrite S, T, (K l Gl); reflexivity.
  - eapply Forall_impl; [|exact G]; intros seg [_ [_ D]]; exact D.
Qed.

Lemma In_firstn {A : Type} (a : A) (n : nat) (l : list A) :
  In a (firstn n l) -> In a l.
Proof.
  revert l; induction n as [|n IH]; intros [|b l] H; simpl in *;
    try contradiction.
  destruct H as [H|H]; [now left | right; now apply IH].
Qed.

Lemma sentences_summarize (text : string) (max_sentences : option Z) :
  sentences (summarize text max_sentences)
  = firstn (Z.to_nat (Z.max (arg max_sentences 3) 1)) (sentences text).
Proof.
  rewrite summarize_unfold.
  destruct (sentences text) as [|x l] eqn:E;
    [now rewrite firstn_nil|].
  set (k := Z.to_nat (Z.max (arg max_sentences 3) 1)).
  assert (K : (1 <= k)%nat) by (subst k; lia).
  destruct k as [|k]; [lia|].
  cbn [firstn]; apply sentences_of_joined.
  apply Forall_forall; intros seg I; apply (sentences_spec text).
  rewrite E; destruct I as [<-|I]; [now left|].
  right; eapply In_firstn; exact I.
Qed.

(** X10.  Cutting the summary into segments again gives back the segments
    that were kept: the first [max max_sentences 1] segments of the text,
    each unchanged. *)
Theorem summarize_keeps_segments_unchanged (text : string)
    (max_sentences : option Z) :
  let n := Z.to_nat (Z.max (arg max_sentences 3) 1) in
  sentences (summarize text max_sentences) = firstn n (sentences text)
  /\ (List.length (sentences (summarize text max_sentences)) <= n)%nat.
Proof.
  intros n; rewrite sentences_summarize; fold n.
  split; [reflexivity | apply firstn_le_length].
Qed.

(** X11.  Summarizing a summary with the same bound returns the summary. *)
Theorem summarize_idempotent (text : string) (max_sentences : option Z) :
  summarize (summarize text max_sentences) max_sentences
  = summarize text max_sentences.
Proof.
  rewrite (summarize_unfold (summarize text max_sentences)).
  rewrite sentences_summarize, firstn_firstn, Nat.min_id.
  rewrite (summarize_unfold text).
  destruct (sentences text) as [|x l]; [now rewrite firstn_nil|].
  destruct (Z.to_nat (Z.max (arg max_sentences 3) 1)) as [|k] eqn:K; [lia|].
  reflexivity.
Qed.

(** ** query_db *)

Lemma lower_rstrip_with (p : ascii -> bool) (s : string) :
  (forall c, p (lower_char c) = p c) ->
  lower (rstrip_with p s) = rstrip_with p (lower s).
Proof.
  intros P; induction s as [|c s IH]; [reflexivity|].
  cbn [lower rstrip_with]; rewrite P, <- IH, truthy_lower.
  destruct (p c && negb (truthy (rstrip_with p s))); reflexivity.
Qed.

Lemma semicolon_lower_char (c : ascii) :
  mem_char (lower_char c) ";" = mem_char c ";".
Proof.
  destruct c as [b0 b1 b2 b3 b4 b5 b6 b7].
  destruct b7, b6, b5, b4, b3, b2, b1, b0; reflexivity.
Qed.

Lemma startswith_append (p a b : string) :
  startswith p a = true -> startswith p (a ++ b) = true.
Proof.
  rewrite !startswith_iff; intros [t ->]; exists (t ++ b).
  clear; induction p as [|c p IH]; simpl; [reflexivity | now f_equal].
Qed.

(** X12.  Every statement that [query_db] hands to the database begins with
    "select", in any case: appending the limit clause and dropping the
    trailing semicolons keep the beginning of an accepted statement. *)
Theorem query_db_sends_only_select (drv : Driver) (sql : string)
    (limit : option Z) :
  accepted sql = true ->
  query_db drv sql limit = with_connection drv (fetch drv (sent sql limit))
  /\ startswith "select" (lower (sent sql limit)) = true.
Proof.
  intros A; split; [now apply query_db_accepted|].
  unfold sent; destruct (mentions_limit sql); [exact A|].
  rewrite lower_append; apply startswith_append.
  unfold rstrip; rewrite lower_rstrip_with by apply semicolon_lower_char.
  rewrite startswith_rstrip_with by reflexivity; exact A.
Qed.

Lemma query_db_sends_only_select_witness :
  accepted " Select * from users;; " = true
  /\ startswith "select" (lower (sent " Select * from users;; " (Some 5))) = true
  /\ sent " Select * from users;; " (Some 5) = "Select * from users LIMIT 5".
Proof.
  split; [reflexivity|]; split; [|reflexivity].
  exact (proj2 (query_db_sends_only_select Sqlite.driver
                  " Select * from users;; " (Some 5) eq_refl)).
Defined.

Lemma key_eqb_refl (k : string) : key_eqb k k = true.
Proof. unfold key_eqb; now rewrite String.eqb_refl. Qed.

Lemma getitem_skip (pre r : Row) (name : string) :
  (forall k, In k (keys pre) -> key_eqb k name = false) ->
  getitem (pre ++ r)%list name = getitem r name.
Proof.
  induction pre as [|[k v] pre IH]; intros H; [reflexivity|].
  cbn [app getitem]; rewrite (H k (or_introl eq_refl)).
  apply IH; intros k' I; apply H; now right.
Qed.

Lemma getitem_distinct_from (pre suf : Row) :
  (forall k, In k (keys pre) -> forall k', In k' (keys suf) ->
             key_eqb k k' = false) ->
  distinct_keys (keys suf) = true ->
  for_each (fun c => getitem (pre ++ suf)%list c) (keys suf) = Ok (map snd suf).
Proof.
  revert pre; induction suf as [|[k v] suf IH]; intros pre H D; [reflexivity|].
  cbn [keys map fst snd for_each distinct_keys] in *.
  apply andb_true_iff in D; destruct D as [D1 D2].
  unfold bind; rewrite getitem_skip
    by (intros k0 I; apply H; [exact I | now left]).
  cbn [getitem]; rewrite key_eqb_refl.
  replace (pre ++ (k, v) :: suf)%list with ((pre ++ [(k, v)]) ++ suf)%list
    by (now rewrite <- app_assoc).
  fold (keys suf); rewrite IH; [reflexivity | | exact D2].
  intros k0 I k' I'; unfold keys in I; rewrite map_app in I.
  apply in_app_or in I; destruct I as [I|[<-|[]]].
  - apply H; [exact I | now right].
  - apply negb_true_iff in D1; cbn [fst].
    destruct (key_eqb k k') eqn:Q; [|reflexivity].
    assert (X : existsb (key_eqb k) (map fst suf) = true)
      by (apply existsb_exists; exists k'; split; assumption).
    congruence.
Qed.

Lemma getitem_distinct (r : Row) :
  distinct_keys (keys r) = true ->
  for_each (fun c => getitem r c) (keys r) = Ok (map snd r).
Proof.
  intros D; apply (getitem_distinct_from [] r); [intros k []|exact D].
Qed.

(** X13.  When the fetched rows carry the same column names, and these are
    distinct for the row lookup, [query_db] returns the names of the first
    row as columns and the values of every row, unchanged and in order. *)
Theorem query_db_returns_fetched_values (drv : Driver) (sql : string)
    (limit : option Z) (store : Store drv) (db db' : Conn drv) (r0 : Row)
    (rest : list Row) :
  accepted sql = true ->
  connect drv store = Ok db ->
  execute drv (sent sql limit) [] db = (Ok (r0 :: rest), db') ->
  Forall (fun r => keys r = keys r0) rest ->
  distinct_keys (keys r0) = true ->
  query_db drv sql limit store
  = (Ok {| columns := keys r0; rows := map (map snd) (r0 :: rest) |},
     Some (close drv db')).
Proof.
  intros A C X U D; rewrite query_db_accepted by exact A.
  unfold with_connection, fetch, mbind, lift, ret; rewrite C, X.
  rewrite (for_each_map
             (fun r : Row => for_each (fun c => getitem r c) (keys r0))
             (map snd) (r0 :: rest)); [reflexivity|].
  intros r [<-|I]; [now apply getitem_distinct|].
  rewrite Forall_forall in U; rewrite <- (U r I).
  apply getitem_distinct; now rewrite (U r I).
Qed.

Lemma query_db_returns_fetched_values_witness :
  query_db Sqlite.driver "SELECT * FROM users LIMIT 2" None (Some seeded)
  = (Ok {| columns := ["id"; "name"; "messages"];
           rows := [ [Integer 1; Txt "alice"; Integer 5];
                     [Integer 2; Txt "bob"; Integer 3] ] |},
     Some seeded).
Proof.
  apply (query_db_returns_fetched_values Sqlite.driver
           "SELECT * FROM users LIMIT 2" None (Some seeded)
           (Sqlite.mkconn seeded None) (Sqlite.mkconn seeded None)
           [("id", Integer 1); ("name", Txt "alice"); ("messages", Integer 5)]
           [[("id", Integer 2); ("name", Txt "bob"); ("messages", Integer 3)]]
           eq_refl eq_refl eq_refl).
  - repeat constructor.
  - reflexivity.
Defined.

Lemma getitem_found (r : Row) (k : string) :
  In k (keys r) -> exists v, getitem r k = Ok v.
Proof.
  induction r as [|[k0 v0] r IH]; intros I; [contradiction|].
  cbn [getitem]; destruct (key_eqb k0 k) eqn:Q; [now exists v0|].
  destruct I as [I|I]; [|now apply IH].
  simpl in I; subst k0; rewrite key_eqb_refl in Q; discriminate.
Qed.

Lemma for_each_found {A B : Type} (f : A -> result B) (l : list A) :
  (forall a, In a l -> exists b, f a = Ok b) ->
  exists bs, for_each f l = Ok bs /\ List.length bs = List.length l.
Proof.
  induction l as [|a l IH]; intros H; [exists []; split; reflexivity|].
  destruct (H a (or_introl eq_refl)) as [b Hb].
  destruct IH as [bs [E L]]; [intros x I; apply H; now right|].
  exists (b :: bs); cbn [for_each]; unfold bind; rewrite Hb, E.
  split; [reflexivity | simpl; now rewrite L].
Qed.

Lemma for_each_related {A B : Type} (f : A -> result B) (P : A -> B -> Prop)
    (l : list A) :
  (forall a, In a l -> exists b, f a = Ok b /\ P a b) ->
  exists bs, for_each f l = Ok bs /\ Forall2 P l bs.
Proof.
  induction l as [|a l IH]; intros H; [exists []; split; constructor|].
  destruct (H a (or_introl eq_refl)) as [b [Hb Pb]].
  destruct IH as [bs [E F]]; [intros x I; apply H; now right|].
  exists (b :: bs); cbn [for_each]; unfold bind; rewrite Hb, E.
  split; [reflexivity | now constructor].
Qed.

(** X14.  When the first two columns of the fetched rows have names that
    are equal for the row lookup (the same name, or two ASCII names that
    differ in case only), every row of the result carries the value of the
    first column in both places: the value of the second is lost. *)
Theorem query_db_repeats_first_of_equal_columns (drv : Driver) (sql : string)
    (limit : option Z) (store : Store drv) (db db' : Conn drv)
    (fetched : list Row) (k1 k2 : string) (ks : list string) :
  accepted sql = true ->
  connect drv store = Ok db ->
  execute drv (sent sql limit) [] db = (Ok fetched, db') ->
  fetched <> [] ->
  Forall (fun r => keys r = k1 :: k2 :: ks) fetched ->
  key_eqb k1 k2 = true ->
  exists data,
    query_db drv sql limit store
    = (Ok {| columns := k1 :: k2 :: ks; rows := data |}, Some (close drv db'))
    /\ Forall2 (fun r row =>
                  exists v vs,
                    nth_error r 0 = Some (k1, v) /\ row = v :: v :: vs
                    /\ List.length vs = List.length ks)
         fetched data.
Proof.
  intros A C X N U Q; rewrite query_db_accepted by exact A.
  unfold with_connection, fetch, mbind, lift, ret; rewrite C, X.
  assert (K : match fetched with r :: _ => keys r | [] => [] end
              = k1 :: k2 :: ks).
  { destruct fetched as [|r0 rest]; [contradiction|].
    inversion U; assumption. }
  rewrite K; clear K N X C.
  assert (R : forall r, In r fetched ->
                exists v vs,
                  for_each (fun c => getitem r c) (k1 :: k2 :: ks)
                  = Ok (v :: v :: vs)
                  /\ nth_error r 0 = Some (k1, v)
                  /\ List.length vs = List.length ks).
  { intros r I; rewrite Forall_forall in U; specialize (U r I).
    destruct r as [|[k v] r]; [discriminate|].
    cbn [keys map fst] in U; injection U as E1 E2; subst k.
    destruct (for_each_found (fun c => getitem ((k1, v) :: r) c) ks)
      as [vs [F L]].
    { intros c Ic; apply getitem_found; cbn [keys map fst]; right.
      fold (keys r); unfold keys; rewrite E2; now right. }
    exists v, vs; cbn [for_each]; unfold bind; rewrite F.
    cbn [getitem]; rewrite key_eqb_refl, Q; repeat split; exact L. }
  destruct (for_each_related
              (fun r : Row => for_each (fun c => getitem r c) (k1 :: k2 :: ks))
              (fun r row => exists v vs,
                   nth_error r 0 = Some (k1, v) /\ row = v :: v :: vs
                   /\ List.length vs = List.length ks)
              fetched) as [data [E D]].
  { intros r I; destruct (R r I) as [v [vs [F [Hn L]]]].
    exists (v :: v :: vs); split; [exact F|].
    exists v, vs; repeat split; assumption. }
  exists data; rewrite E; split; [reflexivity | exact D].
Qed.

Lemma query_db_repeats_first_of_equal_columns_witness :
  key_eqb "a" "A" = true
  /\ fst (query_db
            (stub_driver (Ok [[("a", Integer 1); ("A", Integer 2);
                               ("b", Integer 3)]]))
            "select 1 as a, 2 as A, 3 as b" None None)
     = Ok {| columns := ["a"; "A"; "b"];
             rows := [[Integer 1; Integer 1; Integer 3]] |}.
Proof.
  split; [reflexivity|].
  destruct (query_db_repeats_first_of_equal_columns
              (stub_driver (Ok [[("a", Integer 1); ("A", Integer 2);
                                 ("b", Integer 3)]]))
              "select 1 as a, 2 as A, 3 as b" None None tt tt
              [[("a", Integer 1); ("A", Integer 2); ("b", Integer 3)]]
              "a" "A" ["b"] eq_refl eq_refl eq_refl)
    as [data [E _]].
  - discriminate.
  - repeat constructor.
  - reflexivity.
  - reflexivity.
Defined.

(** ** The store across starts and queries *)

Lemma with_connection_leaves_store (drv : Driver) (A : Type)
    (body : M (Conn drv) A) (store : Store drv) (db : Conn drv) :
  connect drv store = Ok db ->
  snd (with_connection drv body store) = Some (close drv (snd (body db))).
Proof.
  intros C; unfold with_connection; rewrite C.
  destruct (body db) as [r db']; reflexivity.
Qed.

(** X15.  Once the connection has opened, [_ensure_db] leaves a store
    behind whether its statements succeed or raise, and no later start
    touches that store: the table is created and seeded in the first start
    or never.  When the connection does not open, the store stays absent
    and the error is raised. *)
Theorem _ensure_db_seeds_once_or_never (drv : Driver) :
  (forall db, connect drv None = Ok db ->
     exists d, snd (_ensure_db drv None) = Some d
               /\ forall n, started drv n (Some d) = (Ok tt, Some d))
  /\ (forall e, connect drv None = Raise e ->
       _ensure_db drv None = (Raise e, None)).
Proof.
  split.
  - intros db C; unfold _ensure_db.
    rewrite (with_connection_leaves_store drv _ _ None db C).
    eexists; split; [reflexivity|].
    intros n; apply started_keeps.
  - intros e C; unfold _ensure_db, with_connection; rewrite C; reflexivity.
Qed.

Lemma _ensure_db_seeds_once_or_never_witness :
  _ensure_db (stub_driver (Raise (OperationalError "disk I/O error"))) None
  = (Raise (OperationalError "disk I/O error"), Some tt)
  /\ started (stub_driver (Raise (OperationalError "disk I/O error"))) 3
       (Some tt)
     = (Ok tt, Some tt).
Proof.
  split; [reflexivity|].
  destruct (proj1 (_ensure_db_seeds_once_or_never
                     (stub_driver (Raise (OperationalError "disk I/O error"))))
              tt eq_refl) as [d [_ H]].
  destruct d; exact (H 3%nat).
Defined.

(** X16.  A statement that is refused leaves the store as it was, absent
    if it was absent.  An accepted statement run while the store is absent
    leaves a store behind as soon as the connection opens, whatever the
    database answers, and [_ensure_db] then finds a store and does not
    seed it. *)
Theorem query_db_before_first_start (drv : Driver) (sql : string)
    (limit : option Z) :
  (accepted sql = false -> snd (query_db drv sql limit None) = None)
  /\ (accepted sql = true ->
      forall db, connect drv None = Ok db ->
        exists d, snd (query_db drv sql limit None) = Some d
                  /\ _ensure_db drv (Some d) = (Ok tt, Some d)).
Proof.
  split.
  - intros A; now rewrite query_db_rejected.
  - intros A db C; rewrite query_db_accepted by exact A.
    rewrite (with_connection_leaves_store drv _ _ None db C).
    eexists; split; reflexivity.
Qed.

Lemma query_db_before_first_start_witness :
  accepted "SELECT * FROM users" = true
  /\ query_db Sqlite.driver "SELECT * FROM users" None None
     = (Raise (OperationalError "no such table: users"), Some [])
  /\ _ensure_db Sqlite.driver (Some []) = (Ok tt, Some [])
  /\ snd (query_db Sqlite.driver "DROP TABLE users" None None) = None.
Proof.
  split; [reflexivity|]; split; [vm_compute; reflexivity|]; split.
  - destruct (proj2 (query_db_before_first_start Sqlite.driver
                       "SELECT * FROM users" None) eq_refl
                (Sqlite.mkconn [] None) eq_refl) as [d [_ H]].
    reflexivity.
  - exact (proj1 (query_db_before_first_start Sqlite.driver
                    "DROP TABLE users" None) eq_refl).
Defined.

(** ** Bounds that are not enforced *)

(** X17.  A negative [max_bytes] does not empty the answer of [read_file]:
    for a file that is read, the text comes back without its last
    [- max_bytes] characters (all of them gone only when the text is that
    short); it is the bound 0 that gives the empty text. *)
Theorem read_file_negative_bound (fs : FileSystem) (s : string) (q : PosixPath)
    (text : string) (max_bytes : Z) :
  _safe_path fs s = Ok (Some q) ->
  path_exists fs q = Ok true ->
  is_file fs q = Ok true ->
  read_text fs q = Ok text ->
  max_bytes < 0 ->
  read_file fs s (Some max_bytes)
  = Ok (take (length text - Z.to_nat (- max_bytes)) text)
  /\ Z.of_nat (length (take (length text - Z.to_nat (- max_bytes)) text))
     = Z.max 0 (Z.of_nat (length text) + max_bytes)
  /\ read_file fs s (Some 0) = Ok "".
Proof.
  intros S E F R B; unfold read_file, bind; rewrite S, E, F, R; cbn [arg negb].
  split; [|split].
  - f_equal; unfold slice_to.
    destruct (Z.ltb_spec max_bytes 0) as [N|N]; [|lia].
    f_equal; lia.
  - rewrite length_take; lia.
  - reflexivity.
Qed.

Lemma read_file_negative_bound_witness :
  read_file Disk.example "notes.txt" (Some (-5)) = Ok "remember the".
Proof.
  exact (proj1 (read_file_negative_bound Disk.example "notes.txt"
                  (Path "/srv/app/notes.txt") "remember the milk" (-5)
                  eq_refl eq_refl eq_refl eq_refl eq_refl)).
Defined.

(** X18.  [list_dir] raises only what the resolver raises, what the tests
    [exists] and [is_dir] raise on the directory, what [os.listdir] raises,
    or what [is_dir] raises on one of the children; in the last case the
    entries formed before are not returned. *)
Theorem list_dir_raises_only_from_the_file_system (fs : FileSystem)
    (ds : Directories) (path : option string) (e : exn) :
  list_dir fs ds path = Raise e ->
  _safe_path fs (arg path ".") = Raise e
  \/ exists q,
       _safe_path fs (arg path ".") = Ok (Some q)
       /\ (path_exists fs q = Raise e
           \/ is_dir ds q = Raise e
           \/ listdir ds q = Raise e
           \/ exists names n,
                listdir ds q = Ok names /\ In n names
                /\ is_dir ds (child q n) = Raise e).
Proof.
  unfold list_dir, bind; intros H.
  destruct (_safe_path fs (arg path ".")) as [[q|]|e0] eqn:S; try discriminate;
    [|left; inversion H; reflexivity].
  right; exists q; split; [reflexivity|].
  destruct (path_exists fs q) as [[]|e1]; try discriminate;
    [|left; inversion H; reflexivity].
  right.
  destruct (is_dir ds q) as [[]|e2]; try discriminate;
    [|left; inversion H; reflexivity].
  right; cbn [negb] in H; unfold iterdir, bind in H.
  destruct (listdir ds q) as [names|e3]; [|left; inversion H; reflexivity].
  right; exists names.
  induction names as [|n names IH]; [discriminate|].
  cbn [map for_each] in H; unfold bind in H.
  destruct (is_dir ds (child q n)) as [d|e4] eqn:D.
  - destruct (for_each _ (map (child q) names)) as [bs|e5] eqn:G;
      [discriminate|].
    destruct IH as [m [_ [I X]]]; [now inversion H|].
    exists m; repeat split; [now right | exact X].
  - exists n; repeat split; [now left | inversion H; subst; exact D].
Qed.

Lemma list_dir_raises_only_from_the_file_system_witness :
  list_dir Disk.example (disk_dirs example_tree) (Some "~nosuchuser")
  = Raise (RuntimeError "Could not determine home directory.")
  /\ _safe_path Disk.example "~nosuchuser"
     = Raise (RuntimeError "Could not determine home directory.").
Proof.
  split; [reflexivity|].
  destruct (list_dir_raises_only_from_the_file_system Disk.example
              (disk_dirs example_tree) (Some "~nosuchuser")
              (RuntimeError "Could not determine home directory.") eq_refl)
    as [H | [q [H _]]]; [exact H | discriminate].
Defined.

(** X19.  For a statement that mentions "limit" anywhere, the [limit]
    argument of [query_db] has no effect at all: any two values of it give
    the same outcome and the same store. *)
Theorem query_db_ignores_limit_when_mentioned (drv : Driver) (sql : string)
    (l1 l2 : option Z) :
  mentions_limit sql = true ->
  query_db drv sql l1 = query_db drv sql l2.
Proof.
  intros L; unfold query_db.
  destruct (negb (startswith "select" (lower (strip sql)))); [reflexivity|].
  rewrite contains_limit_strip; fold (mentions_limit sql); rewrite L.
  reflexivity.
Qed.

Lemma query_db_ignores_limit_when_mentioned_witness :
  mentions_limit "SELECT * FROM users LIMIT 4" = true
  /\ query_db Sqlite.driver "SELECT * FROM users LIMIT 4" (Some 1)
     = query_db Sqlite.driver "SELECT * FROM users LIMIT 4" (Some 1000).
Proof.
  split; [reflexivity|].
  exact (query_db_ignores_limit_when_mentioned Sqlite.driver
           "SELECT * FROM users LIMIT 4" (Some 1) (Some 1000) eq_refl).
Defined.
